(** * SafeTrade: community alert, catalog cache, filter translation, guards

    A shallow embedding of the decision logic of the SafeTrade monorepo:

    - [Comunidad]: [ComunidadController.determineAlertLevel]
      (backend, comunidad.controller.ts);
    - [Tendencias]: the trend aggregator behind [getTendencias]
      (comunidad.service.ts and comunidad.repository.ts);
    - [Catalogs]: [AdminAPIService.getCatalogs] and the name resolvers
      (admin-portal, AdminAPIService.ts);
    - [Transformer]: [ReportTransformer] (admin-portal, services);
    - [Guard]: [AnonymousAuthGuard.canActivate] (backend);
    - [ReportsList]: [ReportsListViewModel.applyFilters] (mobile).

    JavaScript numbers that take part in arithmetic are IEEE-754 binary64
    values and are modelled by Rocq's primitive floats, so that [0 / 0] is
    NaN and every comparison with NaN is false, as in the source.  Catalog
    ids, page numbers and millisecond timestamps are integers and are
    modelled by [Z]. *)

From Stdlib Require Import ZArith Lia Ascii Floats.
From Stdlib Require Uint63.
From stdpp Require Import base option list gmap strings sorting.

Local Open Scope Z_scope.

(** ** JavaScript values: truthiness and completions *)

Module JS.

(** [Boolean(x)] for a number: false for [+0], [-0] and [NaN]. *)
Definition truthy_number (x : float) : bool :=
  negb (PrimFloat.is_nan x || PrimFloat.is_zero x).

(** [x || d] where [x] is a number or [undefined]. *)
Definition or_number (x : option float) (d : float) : float :=
  match x with
  | Some v => if truthy_number v then v else d
  | None => d
  end.

(** [Boolean(s)] for a string: false exactly for the empty string. *)
Definition truthy_string (s : string) : bool :=
  match s with
  | EmptyString => false
  | String _ _ => true
  end.

(** [x || d] where [x] is a string, [null] or [undefined]. *)
Definition or_string (x : option string) (d : string) : string :=
  match x with
  | Some v => if truthy_string v then v else d
  | None => d
  end.

(** [Boolean(n)] for an integer-valued number. *)
Definition truthy_int (n : Z) : bool := negb (n =? 0).

(** What a [throw] carries. *)
Inductive Thrown : Type :=
| TypeError (message : string)
| Error (message : string).

(** How the evaluation of a call ends. *)
Inductive Completion (A : Type) : Type :=
| Normal (value : A)
| Throw (e : Thrown).
Arguments Normal {A} value.
Arguments Throw {A} e.

(** [s.split(sep)] for a one-character separator: never empty, and
    [String.prototype.split] keeps the empty pieces. *)
Fixpoint split (sep : Ascii.ascii) (s : string) : list string :=
  match s with
  | EmptyString => [EmptyString]
  | String c rest =>
      if Ascii.eqb c sep then EmptyString :: split sep rest
      else match split sep rest with
           | w :: ws => String c w :: ws
           | [] => [String c EmptyString]
           end
  end.

End JS.

(** ** The alert-level classifier (comunidad.controller.ts) *)

Module Comunidad.

Inductive AlertLevel : Set := verde | amarillo | rojo.

(** [analytics.community_overview as Record<string, number>] *)
Record CommunityOverview : Set := {
  highest_impact_count : float;
  total_reports : float
}.

(** An element of [tendencias.attack_trends]. *)
Record AttackTrend : Set := { percentage : float }.

(** [tendencias]: [attack_trends] may be missing (the source guards it
    with [?.]); [summary.main_threat] feeds the message only. *)
Record TendenciasData : Set := {
  attack_trends : option (list AttackTrend);
  main_threat : string
}.

(** [(highest_impact_count / total_reports) * 100] *)
Definition highImpactPercentage (o : CommunityOverview) : float :=
  (highest_impact_count o / total_reports o * 100)%float.

(** [attack_trends?.[0]?.percentage || 0] *)
Definition topAttackPercentage (t : TendenciasData) : float :=
  JS.or_number (percentage <$> (attack_trends t ≫= head)) 0%float.

Definition determineAlertLevel (t : TendenciasData) (o : CommunityOverview)
  : AlertLevel :=
  let highImpactPercentage := highImpactPercentage o in
  let topAttackPercentage := topAttackPercentage t in
  if ((40 <? highImpactPercentage) || (60 <? topAttackPercentage))%float
  then rojo
  else if ((20 <? highImpactPercentage) || (40 <? topAttackPercentage))%float
  then amarillo
  else verde.

(** The top attack percentage as the decision rule reads it: the
    percentage of the first entry of the distribution, 0 if there is none. *)
Definition firstEntryPercentage (t : TendenciasData) : float :=
  default 0%float (percentage <$> (attack_trends t ≫= head)).

(** The two tier tests, named as the decision table reads them. *)
Definition red_test (hip top : float) : Prop :=
  (40 <? hip)%float = true ∨ (60 <? top)%float = true.

Definition yellow_test (hip top : float) : Prop :=
  (20 <? hip)%float = true ∨ (40 <? top)%float = true.

(** The level the top attack percentage alone selects. *)
Definition level_of_top (top : float) : AlertLevel :=
  if (60 <? top)%float then rojo
  else if (40 <? top)%float then amarillo
  else verde.

(** An overview built from two report counts. *)
Definition overview_of_counts (highest total : Z) : CommunityOverview :=
  {| highest_impact_count := PrimFloat.of_uint63 (Uint63.of_Z highest);
     total_reports := PrimFloat.of_uint63 (Uint63.of_Z total) |}.

(** A trend summary whose distribution carries the given percentages. *)
Definition trends_of_percentages (ps : list float) : TendenciasData :=
  {| attack_trends := Some (Build_AttackTrend <$> ps); main_threat := "email" |}.

(** The two thresholds on exact counts: [h / t * 100 > 40] when
    [5 h > 2 t], and [h / t * 100 > 20] when [5 h > t].  [tests_agree h t]
    compares them with the binary64 tests of the classifier. *)
Definition tests_agree (h t : Z) : bool :=
  let hip := highImpactPercentage (overview_of_counts h t) in
  Bool.eqb (40 <? hip)%float (2 * t <? 5 * h)
  && Bool.eqb (20 <? hip)%float (t <? 5 * h).

(** [tests_agree] for every total from 1 to [n] and every count of
    high-impact reports up to the total. *)
Definition tests_agree_upto (n : Z) : bool :=
  forallb (λ t, forallb (λ h, tests_agree h t) (seqZ 0 (t + 1))) (seqZ 1 n).

End Comunidad.

(** ** The trend aggregator (comunidad.service.ts, comunidad.repository.ts) *)

Module Tendencias.

(** Modelled from the spec: the window parameter of [getTrends], "taken
    from {7days, 30days, 90days}". *)
Inductive Period : Set := days7 | days30 | days90.

(** Modelled from the spec: a report row, with the fields the data model
    lists. *)
Record Report : Set := {
  report_id : Z;
  attackType : Z;
  impact : Z;
  status : Z;
  isAnonymous : bool;
  createdAt : Z
}.

(** Modelled from the spec: a catalog row, [{id, name}]. *)
Record CatalogEntry : Set := { id : Z; name : string }.

(** Modelled from the spec: an element of a distribution,
    [{id, name, count, percentage}].  The percentage has one decimal and is
    stored in tenths of a percent, so [167] stands for 16.7. *)
Record DistributionEntry : Set := {
  entry_id : Z;
  entry_name : string;
  count : Z;
  percentage : Z
}.

(** Modelled from the spec: [TrendSummary]. *)
Record TrendSummary : Set := {
  period : Period;
  attackTypeDistribution : list DistributionEntry;
  impactDistribution : list DistributionEntry;
  mainThreat : string
}.

(** Modelled from the spec: the trend aggregator is not among the sources
    (only its caller [ComunidadController] is).  "Count per group": the
    number of reports of the window whose key is [k]. *)
Definition countBy (key : Report → Z) (k : Z) (reports : list Report) : Z :=
  Z.of_nat (length (filter (λ r, key r = k) reports)).

(** Modelled from the spec: the missing rounding step, "divide by total
    count in window to get percentage (rounded to a fixed precision, e.g.,
    one decimal)", to the nearest tenth with halves rounded up; an empty
    window gives 0 instead of dividing by zero. *)
Definition roundedPercentage (count total : Z) : Z :=
  if total =? 0 then 0 else (2000 * count + total) / (2 * total).

(** Modelled from the spec: the missing grouping step, "group reports by
    attackType, count per group, ... same for impact", one entry per
    catalog row in catalog order, so that an empty window yields the
    zeroed distribution the spec asks for. *)
Definition distribution (key : Report → Z) (catalog : list CatalogEntry)
  (reports : list Report) : list DistributionEntry :=
  (λ e, {| entry_id := id e;
           entry_name := name e;
           count := countBy key (id e) reports;
           percentage :=
             roundedPercentage (countBy key (id e) reports)
                               (Z.of_nat (length reports)) |}) <$> catalog.

(** Modelled from the spec: the missing comparison behind "the attack-type
    name with the highest count; ties broken by lowest catalog ID":
    [beats a b] when [a] is to be preferred to [b]. *)
Definition beats (a b : DistributionEntry) : bool :=
  (count b <? count a) || ((count a =? count b) && (entry_id a <? entry_id b)).

(** Modelled from the spec: the missing selection of the main threat, one
    pass over the distribution keeping the preferred entry. *)
Definition mainThreatEntry (d : list DistributionEntry)
  : option DistributionEntry :=
  foldl (λ best e,
           match best with
           | None => Some e
           | Some b => if beats e b then Some e else Some b
           end) None d.

(** Modelled from the spec: the missing [getTrends], assembled from the
    steps above over the reports of the window (windowing is the caller's
    work).  The spec does not say what the label is when there is no
    attack type at all; the empty string stands for it. *)
Definition getTrends (p : Period) (attackTypes impacts : list CatalogEntry)
  (reports : list Report) : TrendSummary :=
  let attackTypeDistribution := distribution attackType attackTypes reports in
  {| period := p;
     attackTypeDistribution := attackTypeDistribution;
     impactDistribution := distribution impact impacts reports;
     mainThreat := default "" (entry_name <$> mainThreatEntry attackTypeDistribution) |}.

(** The sum of the percentages of a distribution, in tenths of a percent. *)
Definition percentageSum (d : list DistributionEntry) : Z :=
  foldr Z.add 0 (percentage <$> d).

(** The number of groups of a distribution that hold at least one report. *)
Definition occupied (d : list DistributionEntry) : Z :=
  Z.of_nat (length (filter (λ e, 0 < count e) d)).

(** The data model's foreign-key discipline for the attack type: catalog
    ids are unique and every report references a catalog row. *)
Definition references_catalog (key : Report → Z) (catalog : list CatalogEntry)
  (reports : list Report) : Prop :=
  NoDup (id <$> catalog) ∧ Forall (λ r, key r ∈ id <$> catalog) reports.

(** The built-in attack types, ids 1 to 6 in seed order. *)
Definition seedAttackTypes : list CatalogEntry :=
  [ {| id := 1; name := "email" |}; {| id := 2; name := "SMS" |};
    {| id := 3; name := "whatsapp" |}; {| id := 4; name := "llamada" |};
    {| id := 5; name := "redes_sociales" |}; {| id := 6; name := "otro" |} ].

(** The built-in impact levels, ids 1 to 4 in seed order. *)
Definition seedImpacts : list CatalogEntry :=
  [ {| id := 1; name := "ninguno" |}; {| id := 2; name := "robo_datos" |};
    {| id := 3; name := "robo_dinero" |};
    {| id := 4; name := "cuenta_comprometida" |} ].

(** A report of the given attack type; the other fields play no role in
    the aggregation. *)
Definition reportOf (n a : Z) : Report :=
  {| report_id := n; attackType := a; impact := 1; status := 1;
     isAnonymous := true; createdAt := 0 |}.

(** Six reports of a window, one of each built-in attack type. *)
Definition oneOfEach : list Report :=
  [reportOf 1 1; reportOf 2 2; reportOf 3 3; reportOf 4 4; reportOf 5 5;
   reportOf 6 6].

(** [r] is to be preferred to [x], or is as good: it has more reports, or
    as many and no higher an id. *)
Definition preferred (r x : DistributionEntry) : Prop :=
  count x < count r ∨ (count x = count r ∧ entry_id r ≤ entry_id x).

End Tendencias.

(** ** Admin-portal types (types/catalog.types.ts, types/normalized.types.ts) *)

Module Types.

(** [AttackType], [Impact] and [Status] share one shape. *)
Record CatalogEntry : Set := {
  id : Z;
  name : string;
  created_at : string
}.

Record CatalogData : Set := {
  attackTypes : list CatalogEntry;
  impacts : list CatalogEntry;
  statuses : list CatalogEntry
}.

(** [CatalogMaps]: the three [Map<number, string>] the resolvers read. *)
Record CatalogMaps : Type := {
  attackTypeMap : gmap Z string;
  impactMap : gmap Z string;
  statusMap : gmap Z string
}.

(** [CatalogAPIResponse]: the payload of [/reportes/catalogs]; any of its
    fields may be missing from the JSON that arrives. *)
Record CatalogAPIResponse : Set := {
  res_attackTypes : option (list CatalogEntry);
  res_impacts : option (list CatalogEntry);
  res_statuses : option (list CatalogEntry)
}.

(** The parsed body of the catalog request: either [{success, data}] or
    the payload at top level. *)
Record CatalogResponse : Set := {
  data : option CatalogAPIResponse;
  top_level : CatalogAPIResponse
}.

(** [NormalizedSearchFilters]: every field optional. *)
Record NormalizedSearchFilters : Set := {
  query : option string;
  status : option Z;
  attack_type : option Z;
  impact : option Z;
  is_anonymous : option bool;
  date_from : option string;
  date_to : option string;
  page : option Z;
  limit : option Z
}.

(** [SearchFilters]: the legacy, string-based filters, with the fields
    the service reads: the seven [ReportTransformer] translates, and
    [location], which [searchReports] sends along and no translation
    carries. *)
Record SearchFilters : Set := {
  legacy_query : option string;
  legacy_status : option string;
  attackType : option string;
  impactLevel : option string;
  isAnonymous : option bool;
  dateFrom : option string;
  dateTo : option string;
  location : option string
}.

(** [NormalizedReport] *)
Record NormalizedReport : Set := {
  report_id : Z;
  user_id : option Z;
  report_is_anonymous : bool;
  report_attack_type : Z;
  incident_date : string;
  evidence_url : option string;
  attack_origin : option string;
  sos_cont : option string;
  description : option string;
  report_impact : Z;
  report_status : Z;
  admin_note : option string;
  report_created_at : string;
  updated_at : string
}.

(** [ReportWithDetails extends NormalizedReport] *)
Record ReportWithDetails : Set := {
  base : NormalizedReport;
  attack_type_name : string;
  impact_name : string;
  status_name : string;
  user_email : option string;
  user_name : option string
}.

(** [LegacyReport] *)
Record LegacyReport : Set := {
  l_id : Z;
  l_user_id : option Z;
  l_attack_type : string;
  l_incident_date : string;
  l_impact_level : string;
  l_description : string;
  l_attack_origin : string;
  l_device_info : option string;
  l_is_anonymous : bool;
  l_status : string;
  l_admin_notes : option string;
  l_evidence_urls : list string;
  l_created_at : string;
  l_updated_at : string
}.

(** [LegacyReportSummary] *)
Record LegacyReportSummary : Set := {
  s_id : Z;
  s_attack_type : string;
  s_incident_date : string;
  s_impact_level : string;
  s_status : string;
  s_is_anonymous : bool;
  s_user_id : option Z;
  s_attack_origin : string;
  s_created_at : string
}.

End Types.

(** ** The catalog cache and the name resolvers (AdminAPIService.ts) *)

Module Catalogs.
Import JS Types.

(** [CatalogUtils], imported by the service from utils/catalogUtils: the
    two static helpers the service calls. *)
Class CatalogUtils : Type := {
  createLookupMaps : CatalogData → CatalogMaps;
  createDefaultCatalogs : CatalogData
}.

(** The fields of [AdminAPIService] the catalog code touches. *)
Record Service : Type := {
  catalogCache : option CatalogData;
  catalogMaps : option CatalogMaps;
  lastCacheTime : Z
}.

(** [private readonly CACHE_TIMEOUT = 5 * 60 * 1000] *)
Definition CACHE_TIMEOUT : Z := 5 * 60 * 1000.

(** The service as its field initialisers leave it. *)
Definition newService : Service :=
  {| catalogCache := None; catalogMaps := None; lastCacheTime := 0 |}.

(** What a call meets outside the service: the clock reading [Date.now()]
    and what [this.request] ends with for an endpoint. *)
Record World : Type := {
  clock : Z;
  network : string → Completion CatalogResponse
}.

(** What a method call leaves behind: how it completed, the service
    fields after it, and how many requests it sent. *)
Record Outcome (A : Type) : Type := {
  completion : Completion A;
  final : Service;
  fetches : nat
}.
Arguments Build_Outcome {A} _ _ _.
Arguments completion {A} _.
Arguments final {A} _.
Arguments fetches {A} _.

(** Methods of the service: they read the world, update the fields of
    [this], may throw, and are charged for the requests they send. *)
Definition M (A : Type) : Type := World → Service → Outcome A.

#[global] Instance M_ret : MRet M :=
  λ A a _ this, Build_Outcome (Normal a) this 0%nat.

#[global] Instance M_bind : MBind M :=
  λ A B f m w this,
    match m w this with
    | Build_Outcome (Normal a) this' n =>
        match f a w this' with
        | Build_Outcome c this'' n' => Build_Outcome c this'' (n + n')
        end
    | Build_Outcome (Throw e) this' n => Build_Outcome (Throw e) this' n
    end.

(** [throw e] *)
Definition throw {A} (e : Thrown) : M A :=
  λ _ this, Build_Outcome (Throw e) this 0%nat.

(** [try { body } catch (error) { handler }]: the handler starts from the
    fields as the body left them. *)
Definition try_catch {A} (body : M A) (handler : Thrown → M A) : M A :=
  λ w this,
    match body w this with
    | Build_Outcome (Normal a) this' n => Build_Outcome (Normal a) this' n
    | Build_Outcome (Throw e) this' n =>
        match handler e w this' with
        | Build_Outcome c this'' n' => Build_Outcome c this'' (n + n')
        end
    end.

(** [Date.now()] *)
Definition Date_now : M Z := λ w this, Build_Outcome (Normal (clock w)) this 0%nat.

(** [await this.request(endpoint)]: one request, which returns the parsed
    body or throws. *)
Definition request (endpoint : string) : M CatalogResponse :=
  λ w this, Build_Outcome (network w endpoint) this 1%nat.

(** Reading [this]. *)
Definition get_this : M Service := λ _ this, Build_Outcome (Normal this) this 0%nat.

(** [this.catalogCache = v] *)
Definition set_catalogCache (v : option CatalogData) : M unit :=
  λ _ this,
    Build_Outcome (Normal ())
      {| catalogCache := v; catalogMaps := catalogMaps this;
         lastCacheTime := lastCacheTime this |} 0%nat.

(** [this.catalogMaps = v] *)
Definition set_catalogMaps (v : option CatalogMaps) : M unit :=
  λ _ this,
    Build_Outcome (Normal ())
      {| catalogCache := catalogCache this; catalogMaps := v;
         lastCacheTime := lastCacheTime this |} 0%nat.

(** [this.lastCacheTime = v] *)
Definition set_lastCacheTime (v : Z) : M unit :=
  λ _ this,
    Build_Outcome (Normal ())
      {| catalogCache := catalogCache this; catalogMaps := catalogMaps this;
         lastCacheTime := v |} 0%nat.

(** [private isCacheValid(now)] *)
Definition isCacheValid (this : Service) (now : Z) : bool :=
  now - lastCacheTime this <? CACHE_TIMEOUT.

Definition invalidStructure : Thrown :=
  Error "Invalid catalog data structure received from API".

(** The [try] block of [getCatalogs]. *)
Definition fetchCatalogs `{CatalogUtils} (now : Z) : M CatalogData :=
  response ← request "/reportes/catalogs";
  let at_top_level : M CatalogAPIResponse :=
    if bool_decide (is_Some (res_attackTypes (top_level response)))
    then mret (top_level response)
    else throw invalidStructure in
  catalogData ←
    match data response with
    | Some d =>
        if bool_decide (is_Some (res_attackTypes d)) then mret d
        else at_top_level
    | None => at_top_level
    end;
  match res_attackTypes catalogData, res_impacts catalogData,
        res_statuses catalogData with
  | Some a, Some i, Some s =>
      let cache := {| attackTypes := a; impacts := i; statuses := s |} in
      _ ← set_catalogCache (Some cache);
      _ ← set_catalogMaps (Some (createLookupMaps cache));
      _ ← set_lastCacheTime now;
      mret cache
  | _, _, _ => throw invalidStructure
  end.

(** [async getCatalogs()] *)
Definition getCatalogs `{CatalogUtils} : M CatalogData :=
  now ← Date_now;
  this ← get_this;
  match catalogCache this with
  | Some cache =>
      if isCacheValid this now then mret cache
      else try_catch (fetchCatalogs now) (λ _, mret createDefaultCatalogs)
  | None => try_catch (fetchCatalogs now) (λ _, mret createDefaultCatalogs)
  end.

(** [async getCatalogMaps()]: the non-null assertion [this.catalogMaps!]
    is erased by the compiler, so [null] is handed on. *)
Definition getCatalogMaps `{CatalogUtils} : M (option CatalogMaps) :=
  this ← get_this;
  _ ← (if bool_decide (is_Some (catalogMaps this)) then mret ()
       else _ ← getCatalogs; mret ());
  this ← get_this;
  mret (catalogMaps this).

(** [async refreshCatalogs()] *)
Definition refreshCatalogs `{CatalogUtils} : M unit :=
  _ ← set_catalogCache None;
  _ ← set_catalogMaps None;
  _ ← set_lastCacheTime 0;
  _ ← getCatalogs;
  mret ().

(** Reading a property of [maps]: a [TypeError] when [maps] is [null]. *)
Definition property_of_maps {A} (maps : option CatalogMaps) (property : string)
  (get : CatalogMaps → A) : M A :=
  match maps with
  | Some m => mret (get m)
  | None =>
      throw (TypeError ("Cannot read properties of null (reading '" +:+ property +:+ "')"))
  end.

(** [async getAttackTypeName(id)] *)
Definition getAttackTypeName `{CatalogUtils} (id : Z) : M string :=
  maps ← getCatalogMaps;
  attackTypeMap ← property_of_maps maps "attackTypeMap" attackTypeMap;
  mret (or_string (attackTypeMap !! id) "Desconocido").

(** [async getImpactName(id)] *)
Definition getImpactName `{CatalogUtils} (id : Z) : M string :=
  maps ← getCatalogMaps;
  impactMap ← property_of_maps maps "impactMap" impactMap;
  mret (or_string (impactMap !! id) "Desconocido").

(** [async getStatusName(id)] *)
Definition getStatusName `{CatalogUtils} (id : Z) : M string :=
  maps ← getCatalogMaps;
  statusMap ← property_of_maps maps "statusMap" statusMap;
  mret (or_string (statusMap !! id) "Desconocido").

(** Modelled from the spec: [CatalogUtils.createLookupMaps] is not among
    the sources; the resolver "maps catalog IDs (attack type, impact,
    status) to human-readable names", one map per catalog, a later row
    with the same id replacing an earlier one as [new Map(entries)] does. *)
Definition lookupMap (l : list CatalogEntry) : gmap Z string :=
  foldl (λ m e, <[id e := name e]> m) ∅ l.

(** Modelled from the spec: [CatalogUtils.createDefaultCatalogs] is not
    among the sources; the "built-in default catalog (hardcoded name sets
    for the six attack types, four impact levels, four statuses)", with the
    names and ids of [ATTACK_TYPE_NAMES], [IMPACT_NAMES] and [STATUS_NAMES]. *)
Definition defaultCatalogs : CatalogData :=
  let row i n := {| id := i; name := n; created_at := "" |} in
  {| attackTypes :=
       [row 1 "email"; row 2 "SMS"; row 3 "whatsapp"; row 4 "llamada";
        row 5 "redes_sociales"; row 6 "otro"];
     impacts :=
       [row 1 "ninguno"; row 2 "robo_datos"; row 3 "robo_dinero";
        row 4 "cuenta_comprometida"];
     statuses :=
       [row 1 "nuevo"; row 2 "revisado"; row 3 "en_investigacion";
        row 4 "cerrado"] |}.

(** The helpers as the two definitions above model them. *)
Definition specCatalogUtils : CatalogUtils :=
  {| createLookupMaps c :=
       {| attackTypeMap := lookupMap (attackTypes c);
          impactMap := lookupMap (impacts c);
          statusMap := lookupMap (statuses c) |};
     createDefaultCatalogs := defaultCatalogs |}.

(** A world at clock reading [now] whose catalog request throws. *)
Definition offline (now : Z) : World :=
  {| clock := now; network := λ _, Throw (Error "Error de conexión de red") |}.

(** A world at clock reading [now] whose catalog request returns the
    catalogs [c] under [data]. *)
Definition serving (now : Z) (c : CatalogData) : World :=
  {| clock := now;
     network := λ _,
       Normal {| data := Some {| res_attackTypes := Some (attackTypes c);
                                 res_impacts := Some (impacts c);
                                 res_statuses := Some (statuses c) |};
                 top_level := {| res_attackTypes := None; res_impacts := None;
                                 res_statuses := None |} |} |}.

(** The call [getCatalogs] made in world [w] on the fields [before] was a
    successful fetch of [c]: it sent one request, returned [c], and left
    [c] cached with the clock reading of the call. *)
Definition fetched_at `{CatalogUtils} (w : World) (before after : Service)
  (c : CatalogData) : Prop :=
  getCatalogs w before = Build_Outcome (Normal c) after 1%nat ∧
  catalogCache after = Some c ∧
  lastCacheTime after = clock w.

End Catalogs.

(** ** What [getCatalogs] takes from a response *)

Module CatalogsResponse.
Import JS Types Catalogs.

(** The catalogs the [try] block of [getCatalogs] finds in the body of a
    response: it reads the object under [data] when that has
    [attackTypes], else the body itself when that has, and wants all three
    lists there; [None] where the block throws. *)
Definition accepted (response : CatalogResponse) : option CatalogData :=
  let at_top_level :=
    if bool_decide (is_Some (res_attackTypes (top_level response)))
    then Some (top_level response)
    else None in
  catalogData ←
    match data response with
    | Some d =>
        if bool_decide (is_Some (res_attackTypes d)) then Some d
        else at_top_level
    | None => at_top_level
    end;
  match res_attackTypes catalogData, res_impacts catalogData,
        res_statuses catalogData with
  | Some a, Some i, Some s =>
      Some {| attackTypes := a; impacts := i; statuses := s |}
  | _, _, _ => None
  end.

(** A world at clock reading [now] whose catalog request returns the
    catalogs [c] as the body itself, with no [data]. *)
Definition servingAtTopLevel (now : Z) (c : CatalogData) : World :=
  {| clock := now;
     network := λ _,
       Normal {| data := None;
                 top_level := {| res_attackTypes := Some (attackTypes c);
                                 res_impacts := Some (impacts c);
                                 res_statuses := Some (statuses c) |} |} |}.

(** Catalogs without a row. *)
Definition emptyCatalogs : CatalogData :=
  {| attackTypes := []; impacts := []; statuses := [] |}.

End CatalogsResponse.

(** ** The report and filter transformer ([ReportTransformer]) *)

Module Transformer.
Import JS Types.

(** [toLegacyReport(report)] *)
Definition toLegacyReport (catalogData : CatalogData) (report : ReportWithDetails)
  : LegacyReport :=
  {| l_id := report_id (base report);
     l_user_id := user_id (base report);
     l_attack_type := attack_type_name report;
     l_incident_date := incident_date (base report);
     l_impact_level := impact_name report;
     l_description := or_string (description (base report)) "";
     l_attack_origin := or_string (attack_origin (base report)) "";
     l_device_info := None;
     l_is_anonymous := report_is_anonymous (base report);
     l_status := status_name report;
     l_admin_notes := admin_note (base report);
     l_evidence_urls :=
       match evidence_url (base report) with
       | Some u => if truthy_string u then [u] else []
       | None => []
       end;
     l_created_at := report_created_at (base report);
     l_updated_at := updated_at (base report) |}.

(** [toLegacyReportSummary(report)] *)
Definition toLegacyReportSummary (catalogData : CatalogData)
  (report : ReportWithDetails) : LegacyReportSummary :=
  {| s_id := report_id (base report);
     s_attack_type := attack_type_name report;
     s_incident_date := incident_date (base report);
     s_impact_level := impact_name report;
     s_status := status_name report;
     s_is_anonymous := report_is_anonymous (base report);
     s_user_id := user_id (base report);
     s_attack_origin := or_string (attack_origin (base report)) "";
     s_created_at := report_created_at (base report) |}.

(** [catalog.find(e => e.name === legacyName)?.id], tried only for a
    truthy [legacyName]. *)
Definition idOfName (catalog : list CatalogEntry) (legacyName : option string)
  : option Z :=
  match legacyName with
  | Some n =>
      if truthy_string n
      then id <$> List.find (λ e, bool_decide (name e = n)) catalog
      else None
  | None => None
  end.

(** [catalog.find(e => e.id === normalizedId)?.name], tried only for a
    truthy [normalizedId]. *)
Definition nameOfId (catalog : list CatalogEntry) (normalizedId : option Z)
  : option string :=
  match normalizedId with
  | Some i =>
      if truthy_int i
      then name <$> List.find (λ e, bool_decide (id e = i)) catalog
      else None
  | None => None
  end.

(** [fromLegacyFilters(legacyFilters)] *)
Definition fromLegacyFilters (catalogData : CatalogData)
  (legacyFilters : SearchFilters) : NormalizedSearchFilters :=
  {| query := legacy_query legacyFilters;
     is_anonymous := isAnonymous legacyFilters;
     date_from := dateFrom legacyFilters;
     date_to := dateTo legacyFilters;
     status := idOfName (statuses catalogData) (legacy_status legacyFilters);
     attack_type := idOfName (attackTypes catalogData) (attackType legacyFilters);
     impact := idOfName (impacts catalogData) (impactLevel legacyFilters);
     page := None;
     limit := None |}.

(** [toLegacyFilters(normalizedFilters)]: the object it builds has no
    [location]. *)
Definition toLegacyFilters (catalogData : CatalogData)
  (normalizedFilters : NormalizedSearchFilters) : SearchFilters :=
  {| legacy_query := query normalizedFilters;
     isAnonymous := is_anonymous normalizedFilters;
     dateFrom := date_from normalizedFilters;
     dateTo := date_to normalizedFilters;
     legacy_status := nameOfId (statuses catalogData) (status normalizedFilters);
     attackType := nameOfId (attackTypes catalogData) (attack_type normalizedFilters);
     impactLevel := nameOfId (impacts catalogData) (impact normalizedFilters);
     location := None |}.

(** The normalized filters without their paging fields, which the legacy
    shape does not carry. *)
Definition withoutPaging (f : NormalizedSearchFilters) : NormalizedSearchFilters :=
  {| query := query f; status := status f; attack_type := attack_type f;
     impact := impact f; is_anonymous := is_anonymous f;
     date_from := date_from f; date_to := date_to f;
     page := None; limit := None |}.

(** A report without its derived fields. *)
Definition stripDerivedFields (report : ReportWithDetails) : NormalizedReport :=
  base report.

(** A catalog the filter translation can be inverted on: names are unique
    and truthy, ids are truthy. *)
Definition invertible (catalog : list CatalogEntry) : Prop :=
  NoDup (name <$> catalog) ∧
  Forall (λ e, name e ≠ "" ∧ id e ≠ 0) catalog.

(** The id of an optional filter field occurs in the catalog. *)
Definition references (catalog : list CatalogEntry) (field : option Z) : Prop :=
  ∀ i, field = Some i → i ∈ id <$> catalog.

(** A report whose attack type, id 7, is a row the portal does not know,
    with the name the backend joined to it. *)
Definition qrReport : ReportWithDetails :=
  {| base :=
       {| report_id := 12; user_id := None; report_is_anonymous := true;
          report_attack_type := 7; incident_date := "2025-01-10";
          evidence_url := None; attack_origin := Some "+52 55 0000 0000";
          sos_cont := None; description := None; report_impact := 1;
          report_status := 1; admin_note := None;
          report_created_at := "2025-01-10T12:00:00Z";
          updated_at := "2025-01-10T12:00:00Z" |};
     attack_type_name := "codigo_qr";
     impact_name := "ninguno";
     status_name := "nuevo";
     user_email := None;
     user_name := None |}.

(** The same report carrying a suspicious link in [sos_cont]. *)
Definition qrReportWithLink : ReportWithDetails :=
  {| base :=
       {| report_id := 12; user_id := None; report_is_anonymous := true;
          report_attack_type := 7; incident_date := "2025-01-10";
          evidence_url := None; attack_origin := Some "+52 55 0000 0000";
          sos_cont := Some "http://premio.example"; description := None;
          report_impact := 1; report_status := 1; admin_note := None;
          report_created_at := "2025-01-10T12:00:00Z";
          updated_at := "2025-01-10T12:00:00Z" |};
     attack_type_name := "codigo_qr";
     impact_name := "ninguno";
     status_name := "nuevo";
     user_email := None;
     user_name := None |}.

(** Filters for the second page of new reports. *)
Definition secondPageOfNew : NormalizedSearchFilters :=
  {| query := None; status := Some 1; attack_type := None; impact := None;
     is_anonymous := None; date_from := None; date_to := None;
     page := Some 2; limit := Some 10 |}.

(** A status catalog whose first row has id 0, and one whose first row
    has the empty name. *)
Definition statusesFromZero : CatalogData :=
  {| attackTypes := []; impacts := [];
     statuses := [ {| id := 0; name := "nuevo"; created_at := "" |};
                   {| id := 1; name := "revisado"; created_at := "" |} ] |}.

Definition statusesUnnamed : CatalogData :=
  {| attackTypes := []; impacts := [];
     statuses := [ {| id := 1; name := ""; created_at := "" |};
                   {| id := 2; name := "revisado"; created_at := "" |} ] |}.

(** Filters on a status and nothing else. *)
Definition onlyStatus (i : Z) : NormalizedSearchFilters :=
  {| query := None; status := Some i; attack_type := None; impact := None;
     is_anonymous := None; date_from := None; date_to := None;
     page := None; limit := None |}.

End Transformer.

(** ** The anonymous-access guard (anonymous-auth.guard.ts) *)

Module Guard.
Import JS.

Record Profile : Set := {
  id : Z;
  email : string;
  name : string
}.

(** [AccessPayload]: the claims of a verified token. *)
Record AccessPayload : Set := {
  sub : string;
  type : string;
  profile : Profile
}.

(** [AuthenticatedRequest["user"]] *)
Record User : Set := {
  userId : string;
  user_profile : Profile;
  raw : AccessPayload
}.

(** The request as the guard sees it: the [authorization] header and the
    [user] property it may attach. *)
Record Request : Set := {
  authorization : option string;
  user : option User
}.

(** The collaborators of the guard: [JwtService.verifyAsync] and
    [EnvValidationService.getJwtSecret], each of which may throw. *)
Record Services : Type := {
  verifyAsync : string → string → Completion AccessPayload;
  getJwtSecret : Completion string
}.

Definition anonymousProfile : Profile :=
  {| id := 0; email := "anonymous@safetrade.com"; name := "Usuario Anónimo" |}.

Definition anonymousUser : User :=
  {| userId := "anonymous";
     user_profile := anonymousProfile;
     raw := {| sub := "anonymous"; type := "access"; profile := anonymousProfile |} |}.

(** [(req as AuthenticatedRequest).user = u] *)
Definition attach (req : Request) (u : User) : Request :=
  {| authorization := authorization req; user := Some u |}.

(** [async canActivate(ctx)]: the value returned and the request as the
    guard leaves it. *)
Definition canActivate (services : Services) (req : Request) : bool * Request :=
  let auth := default "" (authorization req) in
  let parts := split " "%char auth in
  let scheme := parts !! 0%nat in
  let token := parts !! 1%nat in
  if bool_decide (scheme ≠ Some "Bearer") || negb (truthy_string (default "" token))
  then (true, attach req anonymousUser)
  else
    match getJwtSecret services with
    | Normal secret =>
        match verifyAsync services (default "" token) secret with
        | Normal payload =>
            if bool_decide (type payload = "access")
            then (true, attach req {| userId := sub payload;
                                      user_profile := profile payload;
                                      raw := payload |})
            else (true, req)
        | Throw _ => (true, attach req anonymousUser)
        end
    | Throw _ => (true, attach req anonymousUser)
    end.

(** A verifier that accepts exactly one token and answers with the given
    claims. *)
Definition accepting (good : string) (payload : AccessPayload) : Services :=
  {| verifyAsync token _ :=
       if bool_decide (token = good) then Normal payload
       else Throw (Error "invalid token");
     getJwtSecret := Normal "secret" |}.

(** Claims of a token that is not an access token. *)
Definition nonAccessPayload : AccessPayload :=
  {| sub := "7"; type := "refresh";
     profile := {| id := 7; email := "ana@safetrade.com"; name := "Ana" |} |}.

End Guard.

(** ** The report list of the mobile client (ReportsListViewModel.swift) *)

Module ReportsList.

(** [enum ReportFilter: String, CaseIterable] *)
Inductive ReportFilter : Set :=
| todos | misReportes | nuevo | revisado | enInvestigacion | cerrado.

#[global] Instance ReportFilter_eq_dec : EqDecision ReportFilter.
Proof. solve_decision. Defined.

Definition rawValue (f : ReportFilter) : string :=
  match f with
  | todos => "todos"
  | misReportes => "mis_reportes"
  | nuevo => "nuevo"
  | revisado => "revisado"
  | enInvestigacion => "en_investigacion"
  | cerrado => "cerrado"
  end.

(** [var isStatusFilter: Bool] *)
Definition isStatusFilter (f : ReportFilter) : bool :=
  negb (bool_decide (f ∈ [todos; misReportes])).

(** The fields of the client's [Report] that the list reads; [createdAt]
    is a [Date], a point on the time line, kept as a number of
    milliseconds. *)
Record Report : Set := {
  id : Z;
  attackType : string;
  status : string;
  attackOrigin : option string;
  description : option string;
  isAnonymous : option bool;
  createdAt : Z
}.

(** The published properties [applyFilters] reads and writes. *)
Record ViewModel : Set := {
  allReports : list Report;
  userReports : list Report;
  filteredReports : list Report;
  selectedFilter : ReportFilter;
  searchQuery : string
}.

(** [a] may stand before [b]: [b] does not have to come before [a]. *)
Definition mayPrecede {A} (areInIncreasingOrder : A → A → bool) : relation A :=
  λ a b, areInIncreasingOrder b a = false.

#[global] Instance mayPrecede_dec {A} (areInIncreasingOrder : A → A → bool) :
  RelDecision (mayPrecede areInIncreasingOrder).
Proof. intros a b. unfold mayPrecede. apply _. Defined.

(** [Sequence.sorted(by: areInIncreasingOrder)]: the elements arranged so
    that none is followed by one that should come before it. *)
Definition sorted_by {A} (areInIncreasingOrder : A → A → bool) (l : list A)
  : list A :=
  merge_sort (mayPrecede areInIncreasingOrder) l.

(** The closure [{ $0.createdAt > $1.createdAt }]. *)
Definition newerFirst (a b : Report) : bool := createdAt a >? createdAt b.

Section ApplyFilters.

(** Foundation's string operations and the display name of the client's
    [Report] model, which live outside the view model. *)
Context (lowercased : string → string)
        (contains : string → string → bool)
        (trimmingWhitespacesAndNewlines : string → string)
        (getAttackTypeDisplayName : Report → string).

(** The closure of the search filter. *)
Definition matchesQuery (query : string) (report : Report) : bool :=
  contains (lowercased (getAttackTypeDisplayName report)) query
  || from_option (λ s, contains (lowercased s) query) false (attackOrigin report)
  || from_option (λ s, contains (lowercased s) query) false (description report).

(** [func applyFilters()] *)
Definition applyFilters (vm : ViewModel) : ViewModel :=
  let reports :=
    match selectedFilter vm with
    | todos => allReports vm
    | misReportes => userReports vm
    | nuevo | revisado | enInvestigacion | cerrado =>
        filter (λ r, status r = rawValue (selectedFilter vm)) (allReports vm)
    end in
  let reports :=
    if negb (bool_decide (trimmingWhitespacesAndNewlines (searchQuery vm) = ""))
    then
      let query := lowercased (searchQuery vm) in
      filter (λ r, matchesQuery query r = true) reports
    else reports in
  let reports := sorted_by newerFirst reports in
  {| allReports := allReports vm;
     userReports := userReports vm;
     filteredReports := reports;
     selectedFilter := selectedFilter vm;
     searchQuery := searchQuery vm |}.

End ApplyFilters.

(** Newest first: no report is followed, anywhere later in the list, by a
    more recent one. *)
Definition newestFirst (l : list Report) : Prop :=
  StronglySorted (λ a b, createdAt b ≤ createdAt a) l.

End ReportsList.

(** ** Translating legacy filters and back *)

Module TransformerExtra.
Import JS Types Transformer.

(** A catalog on which a name can be translated to its id and back: ids
    are unique and truthy, names are truthy. *)
Definition invertible_by_id (catalog : list CatalogEntry) : Prop :=
  NoDup (id <$> catalog) ∧
  Forall (λ e, name e ≠ "" ∧ id e ≠ 0) catalog.

(** The name of an optional legacy field occurs in the catalog. *)
Definition names (catalog : list CatalogEntry) (field : option string) : Prop :=
  ∀ n, field = Some n → n ∈ name <$> catalog.

(** The legacy filters without their [location], which the normalized
    shape does not carry. *)
Definition withoutLocation (f : SearchFilters) : SearchFilters :=
  {| legacy_query := legacy_query f; legacy_status := legacy_status f;
     attackType := attackType f; impactLevel := impactLevel f;
     isAnonymous := isAnonymous f; dateFrom := dateFrom f; dateTo := dateTo f;
     location := None |}.

(** Legacy filters for closed reports from Monterrey that came in by
    SMS. *)
Definition closedBySMS : SearchFilters :=
  {| legacy_query := Some "premio"; legacy_status := Some "cerrado";
     attackType := Some "SMS"; impactLevel := None; isAnonymous := None;
     dateFrom := Some "2025-01-01"; dateTo := None;
     location := Some "Monterrey" |}.

End TransformerExtra.

(** ** Sequences of calls to the catalog methods of the service *)

Module CatalogsExtra.
Import JS Types Catalogs.

(** The catalog methods a caller of the service may invoke. *)
Inductive Call : Set :=
| CallGetCatalogs
| CallGetCatalogMaps
| CallRefreshCatalogs
| CallGetAttackTypeName (id : Z)
| CallGetImpactName (id : Z)
| CallGetStatusName (id : Z).

(** The fields of the service after one call made in the world [w]. *)
Definition after_call `{CatalogUtils} (this : Service) (cw : Call * World)
  : Service :=
  match cw with
  | (CallGetCatalogs, w) => final (getCatalogs w this)
  | (CallGetCatalogMaps, w) => final (getCatalogMaps w this)
  | (CallRefreshCatalogs, w) => final (refreshCatalogs w this)
  | (CallGetAttackTypeName id, w) => final (getAttackTypeName id w this)
  | (CallGetImpactName id, w) => final (getImpactName id w this)
  | (CallGetStatusName id, w) => final (getStatusName id w this)
  end.

(** The fields of the service after a sequence of calls, each completed
    before the next is made, each in a world of its own. *)
Definition after_calls `{CatalogUtils} (this : Service)
  (calls : list (Call * World)) : Service :=
  foldl after_call this calls.

(** The cache fields belong together: the maps are those of the cached
    catalogs, and without cached catalogs the time stamp is 0. *)
Definition coherent `{CatalogUtils} (this : Service) : Prop :=
  catalogMaps this = createLookupMaps <$> catalogCache this ∧
  (catalogCache this = None → lastCacheTime this = 0).

End CatalogsExtra.

(** ** The community alert and its popup ([ReportsListViewModel]) *)

Module AlertPopup.

(** The fields of [CommunityAlert] and of the response of
    [communityService.getCommunityAlert()] that the view model reads. *)
Record CommunityAlert : Set := {
  nivel : string;
  mensaje : string
}.

Record CommunityAlertResponse : Set := {
  success : bool;
  alerta : CommunityAlert
}.

(** A [Timer] object, known by its identity. *)
Definition Timer : Set := nat.

(** The main run loop: the clock in milliseconds, the valid timers
    scheduled on it with their fire dates, and the number of timers created
    so far. *)
Record RunLoop : Set := {
  now : Z;
  scheduled : list (Timer * Z);
  created : nat
}.

(** The published properties of the alert and the popup, the private
    [dismissTimer], and the run loop the timers live on. *)
Record ViewModel : Set := {
  communityAlert : option CommunityAlert;
  communityAlertLoading : bool;
  communityAlertError : option string;
  showingPopup : bool;
  dismissTimer : option Timer;
  runLoop : RunLoop
}.

(** The properties as declared, before [init] has started anything. *)
Definition initial : ViewModel :=
  {| communityAlert := None;
     communityAlertLoading := false;
     communityAlertError := None;
     showingPopup := false;
     dismissTimer := None;
     runLoop := {| now := 0; scheduled := []; created := 0 |} |}.

Definition set_communityAlert (v : option CommunityAlert) (vm : ViewModel)
  : ViewModel :=
  {| communityAlert := v;
     communityAlertLoading := communityAlertLoading vm;
     communityAlertError := communityAlertError vm;
     showingPopup := showingPopup vm;
     dismissTimer := dismissTimer vm;
     runLoop := runLoop vm |}.

Definition set_communityAlertLoading (v : bool) (vm : ViewModel) : ViewModel :=
  {| communityAlert := communityAlert vm;
     communityAlertLoading := v;
     communityAlertError := communityAlertError vm;
     showingPopup := showingPopup vm;
     dismissTimer := dismissTimer vm;
     runLoop := runLoop vm |}.

Definition set_communityAlertError (v : option string) (vm : ViewModel)
  : ViewModel :=
  {| communityAlert := communityAlert vm;
     communityAlertLoading := communityAlertLoading vm;
     communityAlertError := v;
     showingPopup := showingPopup vm;
     dismissTimer := dismissTimer vm;
     runLoop := runLoop vm |}.

Definition set_showingPopup (v : bool) (vm : ViewModel) : ViewModel :=
  {| communityAlert := communityAlert vm;
     communityAlertLoading := communityAlertLoading vm;
     communityAlertError := communityAlertError vm;
     showingPopup := v;
     dismissTimer := dismissTimer vm;
     runLoop := runLoop vm |}.

Definition set_dismissTimer (v : option Timer) (vm : ViewModel) : ViewModel :=
  {| communityAlert := communityAlert vm;
     communityAlertLoading := communityAlertLoading vm;
     communityAlertError := communityAlertError vm;
     showingPopup := showingPopup vm;
     dismissTimer := v;
     runLoop := runLoop vm |}.

Definition set_runLoop (v : RunLoop) (vm : ViewModel) : ViewModel :=
  {| communityAlert := communityAlert vm;
     communityAlertLoading := communityAlertLoading vm;
     communityAlertError := communityAlertError vm;
     showingPopup := showingPopup vm;
     dismissTimer := dismissTimer vm;
     runLoop := v |}.

(** [timer?.invalidate()]: the timer never fires again and leaves the run
    loop; nothing happens for [nil]. *)
Definition invalidate (timer : option Timer) (vm : ViewModel) : ViewModel :=
  match timer with
  | Some t =>
      set_runLoop
        {| now := now (runLoop vm);
           scheduled := filter (λ td, td.1 ≠ t) (scheduled (runLoop vm));
           created := created (runLoop vm) |} vm
  | None => vm
  end.

(** [Timer.scheduledTimer(withTimeInterval:repeats: false)]: a new timer
    on the run loop, due after the interval. *)
Definition scheduledTimer (milliseconds : Z) (vm : ViewModel)
  : Timer * ViewModel :=
  let rl := runLoop vm in
  (created rl,
   set_runLoop
     {| now := now rl;
        scheduled := scheduled rl ++ [(created rl, now rl + milliseconds)];
        created := S (created rl) |} vm).

(** [func togglePopup()] *)
Definition togglePopup (vm : ViewModel) : ViewModel :=
  let vm := invalidate (dismissTimer vm) vm in
  let vm := set_dismissTimer None vm in
  set_showingPopup (negb (showingPopup vm)) vm.

(** [private func showPopupWithAutoHide()] *)
Definition showPopupWithAutoHide (vm : ViewModel) : ViewModel :=
  let vm := invalidate (dismissTimer vm) vm in
  let vm := set_showingPopup true vm in
  let '(timer, vm) := scheduledTimer 5000 vm in
  set_dismissTimer (Some timer) vm.

(** [func showPopup()] *)
Definition showPopup (vm : ViewModel) : ViewModel := showPopupWithAutoHide vm.

(** [func hidePopup()] *)
Definition hidePopup (vm : ViewModel) : ViewModel :=
  let vm := invalidate (dismissTimer vm) vm in
  let vm := set_dismissTimer None vm in
  set_showingPopup false vm.

(** The run loop fires the timer [t]: only a valid timer that is due
    fires; not repeating, it is invalid afterwards; its block hides the
    popup. *)
Definition fire (t : Timer) (vm : ViewModel) : ViewModel :=
  if bool_decide (Exists (λ td, td.1 = t ∧ td.2 ≤ now (runLoop vm))
                    (scheduled (runLoop vm)))
  then set_showingPopup false (invalidate (Some t) vm)
  else vm.

(** Time passes on the run loop. *)
Definition elapse (milliseconds : N) (vm : ViewModel) : ViewModel :=
  set_runLoop
    {| now := now (runLoop vm) + Z.of_N milliseconds;
       scheduled := scheduled (runLoop vm);
       created := created (runLoop vm) |} vm.

(** [var mostCommonAttackMessage: String] *)
Definition mostCommonAttackMessage (vm : ViewModel) : string :=
  match communityAlert vm with
  | None => "No hay datos de alerta disponibles"
  | Some alert => mensaje alert
  end.

Section LoadCommunityAlert.

(** Foundation's [lowercased()]. *)
Context (lowercased : string → string).

(** The first block [loadCommunityAlert] runs on the main actor. *)
Definition loadBegins (vm : ViewModel) : ViewModel :=
  set_communityAlertError None (set_communityAlertLoading true vm).

(** The block run on the main actor once the response has arrived. *)
Definition loadResponse (response : CommunityAlertResponse) (vm : ViewModel)
  : ViewModel :=
  let vm := set_communityAlertLoading false vm in
  if success response then
    let vm := set_communityAlert (Some (alerta response)) vm in
    let vm := set_communityAlertError None vm in
    if bool_decide (lowercased (nivel (alerta response)) = "rojo")
    then showPopupWithAutoHide vm
    else vm
  else
    let vm :=
      set_communityAlertError
        (Some "Error del servidor al cargar alerta comunitaria") vm in
    set_communityAlert None vm.

(** The block run on the main actor in the [catch] clause. *)
Definition loadThrows (vm : ViewModel) : ViewModel :=
  let vm := set_communityAlertLoading false vm in
  let vm :=
    set_communityAlertError (Some "No se pudo cargar la alerta comunitaria") vm in
  set_communityAlert None vm.

(** What happens on the main thread, one thing at a time: the user's
    actions, the passing of time, a timer firing, and the three blocks of
    [loadCommunityAlert], which several loads in flight interleave. *)
Inductive Event : Set :=
| TogglePopup
| ShowPopup
| HidePopup
| Elapse (milliseconds : N)
| Fire (t : Timer)
| LoadBegins
| LoadResponse (response : CommunityAlertResponse)
| LoadThrows.

Definition step (vm : ViewModel) (e : Event) : ViewModel :=
  match e with
  | TogglePopup => togglePopup vm
  | ShowPopup => showPopup vm
  | HidePopup => hidePopup vm
  | Elapse ms => elapse ms vm
  | Fire t => fire t vm
  | LoadBegins => loadBegins vm
  | LoadResponse response => loadResponse response vm
  | LoadThrows => loadThrows vm
  end.

Definition run (vm : ViewModel) (events : list Event) : ViewModel :=
  foldl step vm events.

(** The events that show the popup with a timer behind it. *)
Definition showsWithAutoHide (e : Event) : bool :=
  match e with
  | ShowPopup => true
  | LoadResponse response =>
      success response && bool_decide (lowercased (nivel (alerta response)) = "rojo")
  | _ => false
  end.

End LoadCommunityAlert.

(** The user's actions that can hide the popup. *)
Definition byUser (e : Event) : bool :=
  match e with
  | TogglePopup | HidePopup => true
  | _ => false
  end.

(** The time that passes during the events. *)
Definition elapsed (events : list Event) : Z :=
  foldr (λ e ms, match e with Elapse n => Z.of_N n + ms | _ => ms end) 0 events.

End AlertPopup.

(** * Properties *)

(** ** Comparisons of binary64 numbers *)

Module FloatFacts.

Lemma SFcompare_antisym (x y : spec_float) :
  SFcompare y x = CompOpp <$> SFcompare x y.
Proof.
  destruct x as [sx|sx| |sx mx ex], y as [sy|sy| |sy my ey]; simpl;
    try reflexivity;
    try (destruct sx; reflexivity); try (destruct sy; reflexivity);
    try (destruct sx, sy; reflexivity).
  destruct sx, sy; try reflexivity; f_equal;
    rewrite (Z.compare_antisym ex ey); destruct (ex ?= ey)%Z; simpl;
    try reflexivity;
    rewrite (Pos.compare_cont_antisym mx my Eq); reflexivity.
Qed.

(** [x <= y] excludes [y < x]. *)
Lemma leb_not_gtb (x y : float) :
  (x <=? y)%float = true → (y <? x)%float = false.
Proof.
  rewrite FloatAxioms.leb_spec, FloatAxioms.ltb_spec. unfold SFleb, SFltb.
  rewrite (SFcompare_antisym (Prim2SF x) (Prim2SF y)).
  destruct (SFcompare (Prim2SF x) (Prim2SF y)) as [[]|]; simpl; congruence.
Qed.

(** [x == y] excludes [y < x]. *)
Lemma eqb_not_gtb (x y : float) :
  (x =? y)%float = true → (y <? x)%float = false.
Proof.
  rewrite FloatAxioms.eqb_spec, FloatAxioms.ltb_spec. unfold SFeqb, SFltb.
  rewrite (SFcompare_antisym (Prim2SF x) (Prim2SF y)).
  destruct (SFcompare (Prim2SF x) (Prim2SF y)) as [[]|]; simpl; congruence.
Qed.

(** Only the two zeros compare equal to 0. *)
Lemma eqb_zero (x : float) :
  (x =? 0)%float = true → x = 0%float ∨ x = (-0)%float.
Proof.
  rewrite FloatAxioms.eqb_spec. intros H.
  rewrite <- (SF2Prim_Prim2SF x).
  change (Prim2SF 0) with (S754_zero false) in H.
  destruct (Prim2SF x) as [[]|[]| |[] ? ?]; try discriminate H.
  - right. reflexivity.
  - left. reflexivity.
Qed.

(** Only NaN differs from itself. *)
Lemma SFeqb_irrefl_nan (x : spec_float) : SFeqb x x = false → x = S754_nan.
Proof.
  unfold SFeqb. destruct x as [s | s | | s m e]; simpl; try destruct s;
    try discriminate; try reflexivity;
    rewrite Z.compare_refl, Pos.compare_cont_refl; discriminate.
Qed.

(** Nothing is below NaN. *)
Lemma is_nan_not_gtb (p c : float) :
  PrimFloat.is_nan p = true → (c <? p)%float = false.
Proof.
  unfold PrimFloat.is_nan. rewrite FloatAxioms.eqb_spec, FloatAxioms.ltb_spec.
  intros Hnan. apply negb_true_iff, SFeqb_irrefl_nan in Hnan. rewrite Hnan.
  unfold SFltb. destruct (Prim2SF c); reflexivity.
Qed.

(** Either zero compares as 0 does. *)
Lemma is_zero_gtb (p c : float) :
  PrimFloat.is_zero p = true → (c <? p)%float = (c <? 0)%float.
Proof.
  unfold PrimFloat.is_zero. intros Hzero.
  destruct (eqb_zero p Hzero) as [-> | ->]; [reflexivity |].
  rewrite !FloatAxioms.ltb_spec.
  change (Prim2SF (-0)) with (S754_zero true).
  change (Prim2SF 0) with (S754_zero false).
  unfold SFltb. destruct (Prim2SF c) as [? | ? | | ? ? ?]; reflexivity.
Qed.

(** Against a threshold that is not negative, [x || 0] tests as [x] does,
    and as 0 does when [x] is [undefined]. *)
Lemma or_number_gtb (x : option float) (c : float) :
  (0 <=? c)%float = true →
  (c <? JS.or_number x 0)%float = (c <? default 0%float x)%float.
Proof.
  intros Hc. destruct x as [v |]; [| reflexivity].
  unfold JS.or_number, JS.truthy_number. cbn [default from_option Datatypes.id].
  destruct (PrimFloat.is_nan v) eqn:Hnan.
  - cbn [orb negb]. rewrite (is_nan_not_gtb v c Hnan). by apply leb_not_gtb.
  - destruct (PrimFloat.is_zero v) eqn:Hzero; [| reflexivity].
    cbn [orb negb]. by rewrite (is_zero_gtb v c Hzero).
Qed.

Lemma orb_true_prop (a b : bool) : a || b = true ↔ a = true ∨ b = true.
Proof. destruct a, b; simpl; intuition congruence. Qed.

Lemma orb_false_prop (a b : bool) : a || b = false ↔ ¬ (a = true ∨ b = true).
Proof. destruct a, b; simpl; intuition congruence. Qed.

End FloatFacts.

(** ** The alert-level classifier *)

Module ComunidadFacts.
Import Comunidad FloatFacts.

(** The classifier tests the top attack percentage as it tests the
    percentage of the first entry, 0 if there is none: a first percentage
    that is 0 or NaN is above no threshold either way. *)
Lemma topAttackPercentage_tests (t : TendenciasData) :
  (60 <? topAttackPercentage t)%float = (60 <? firstEntryPercentage t)%float ∧
  (40 <? topAttackPercentage t)%float = (40 <? firstEntryPercentage t)%float.
Proof.
  unfold topAttackPercentage, firstEntryPercentage.
  split; apply or_number_gtb; reflexivity.
Qed.

(** The decision table, whatever the inputs. *)
Lemma determineAlertLevel_table (t : TendenciasData) (o : CommunityOverview) :
  let hip := highImpactPercentage o in
  let top := firstEntryPercentage t in
  (determineAlertLevel t o = rojo ↔ red_test hip top) ∧
  (determineAlertLevel t o = amarillo ↔
     ¬ red_test hip top ∧ yellow_test hip top) ∧
  (determineAlertLevel t o = verde ↔
     ¬ red_test hip top ∧ ¬ yellow_test hip top).
Proof.
  cbv zeta. unfold determineAlertLevel, red_test, yellow_test.
  destruct (topAttackPercentage_tests t) as [-> ->].
  destruct ((40 <? highImpactPercentage o) || (60 <? firstEntryPercentage t))%float
    eqn:Hred.
  - apply orb_true_prop in Hred. intuition congruence.
  - apply orb_false_prop in Hred.
    destruct ((20 <? highImpactPercentage o) || (40 <? firstEntryPercentage t))%float
      eqn:Hyel.
    + apply orb_true_prop in Hyel. intuition congruence.
    + apply orb_false_prop in Hyel. intuition congruence.
Qed.

(** An absent or empty distribution counts as a top percentage of 0, and
    otherwise the first entry decides. *)
Lemma topAttackPercentage_absent (m : string) :
  topAttackPercentage {| attack_trends := None; main_threat := m |} = 0%float.
Proof. reflexivity. Qed.

Lemma topAttackPercentage_empty (m : string) :
  topAttackPercentage {| attack_trends := Some []; main_threat := m |} = 0%float.
Proof. reflexivity. Qed.

Lemma topAttackPercentage_first (p : float) (ps : list float) :
  JS.truthy_number p = true →
  topAttackPercentage (trends_of_percentages (p :: ps)) = p.
Proof.
  intros Hp. unfold topAttackPercentage, trends_of_percentages; simpl.
  rewrite Hp. done.
Qed.

Lemma firstEntryPercentage_first (p : float) (ps : list float) :
  firstEntryPercentage (trends_of_percentages (p :: ps)) = p.
Proof. reflexivity. Qed.

(** Two of five reports at the highest impact is exactly 40.0 in
    binary64, and one of five is exactly 20.0. *)
Example highImpact_2_of_5 :
  highImpactPercentage (overview_of_counts 2 5) = 40%float.
Proof. reflexivity. Qed.

Example highImpact_1_of_5 :
  highImpactPercentage (overview_of_counts 1 5) = 20%float.
Proof. reflexivity. Qed.

Example level_at_40_60 :
  determineAlertLevel (trends_of_percentages [60%float]) (overview_of_counts 2 5)
  = amarillo.
Proof. reflexivity. Qed.

Example level_at_20_40 :
  determineAlertLevel (trends_of_percentages [40%float]) (overview_of_counts 1 5)
  = verde.
Proof. reflexivity. Qed.

Example level_45_10 :
  determineAlertLevel (trends_of_percentages [10%float]) (overview_of_counts 45 100)
  = rojo.
Proof. reflexivity. Qed.

Example level_25_10 :
  determineAlertLevel (trends_of_percentages [10%float]) (overview_of_counts 25 100)
  = amarillo.
Proof. reflexivity. Qed.

Example level_5_5 :
  determineAlertLevel (trends_of_percentages [5%float]) (overview_of_counts 5 100)
  = verde.
Proof. reflexivity. Qed.

Lemma tests_agree_upto_spec (n h t : Z) :
  tests_agree_upto n = true →
  1 ≤ t ≤ n → 0 ≤ h ≤ t →
  tests_agree h t = true.
Proof.
  unfold tests_agree_upto. rewrite forallb_forall. intros Hall Ht Hh.
  specialize (Hall t). rewrite <- list_elem_of_In, elem_of_seqZ in Hall.
  specialize (Hall ltac:(lia)). rewrite forallb_forall in Hall.
  apply Hall. rewrite <- list_elem_of_In, elem_of_seqZ. lia.
Qed.

Lemma tests_agree_upto_400 : tests_agree_upto 400 = true.
Proof. vm_compute. reflexivity. Qed.

(** Rounding does not move the thresholds: for up to 400 reports the
    binary64 tests of the classifier are the exact ones, so that exactly 40
    percent is not above 40 and exactly 20 percent is not above 20. *)
Lemma thresholds_exact_on_counts (h t : Z) :
  1 ≤ t ≤ 400 → 0 ≤ h ≤ t →
  let hip := highImpactPercentage (overview_of_counts h t) in
  (40 <? hip)%float = (2 * t <? 5 * h) ∧ (20 <? hip)%float = (t <? 5 * h).
Proof.
  intros Ht Hh. cbv zeta.
  pose proof (tests_agree_upto_spec 400 h t tests_agree_upto_400 Ht Hh) as Hall.
  unfold tests_agree in Hall.
  apply andb_prop in Hall as [H40 H20].
  apply Bool.eqb_prop in H40, H20. done.
Qed.

(** Two high-impact reports out of five. *)
Lemma thresholds_exact_on_counts_witness :
  let hip := highImpactPercentage (overview_of_counts 2 5) in
  (40 <? hip)%float = (2 * 5 <? 5 * 2) ∧ (20 <? hip)%float = (5 <? 5 * 2).
Proof. exact (thresholds_exact_on_counts 2 5 ltac:(lia) ltac:(lia)). Defined.

(** C1: for an overview with [total_reports > 0] and any trend summary,
    the classifier returns rojo exactly when the high-impact percentage
    ([highest_impact_count / total_reports * 100]) exceeds 40 or the top
    attack percentage (the percentage of the first entry of the
    distribution, 0 if there is none) exceeds 60; otherwise amarillo exactly
    when the high-impact percentage exceeds 20 or the top attack percentage
    exceeds 40; otherwise verde.  A high-impact percentage equal to 40 with
    a top attack percentage of at most 60 is not rojo. *)
Theorem determineAlertLevel_thresholds (t : TendenciasData) (o : CommunityOverview) :
  (0 <? total_reports o)%float = true →
  let hip := (highest_impact_count o / total_reports o * 100)%float in
  let top := firstEntryPercentage t in
  (determineAlertLevel t o = rojo ↔
     (40 <? hip)%float = true ∨ (60 <? top)%float = true) ∧
  (determineAlertLevel t o = amarillo ↔
     ¬ ((40 <? hip)%float = true ∨ (60 <? top)%float = true) ∧
     ((20 <? hip)%float = true ∨ (40 <? top)%float = true)) ∧
  (determineAlertLevel t o = verde ↔
     ¬ ((40 <? hip)%float = true ∨ (60 <? top)%float = true) ∧
     ¬ ((20 <? hip)%float = true ∨ (40 <? top)%float = true)) ∧
  ((hip =? 40)%float = true → (top <=? 60)%float = true →
     determineAlertLevel t o ≠ rojo).
Proof.
  intros _. cbv zeta.
  destruct (determineAlertLevel_table t o) as (Hr & Hy & Hg).
  unfold red_test, yellow_test, highImpactPercentage in Hr, Hy, Hg.
  split; [exact Hr | split; [exact Hy | split; [exact Hg |]]].
  intros H40 H60 Hrojo. apply Hr in Hrojo as [Hhip | Htop].
  - apply eqb_not_gtb in H40. congruence.
  - apply leb_not_gtb in H60. congruence.
Qed.

(** The thresholds at work on two of five high-impact reports and a top
    attack percentage of 60. *)
Lemma determineAlertLevel_thresholds_witness :
  let t := trends_of_percentages [60%float] in
  let o := overview_of_counts 2 5 in
  let hip := (highest_impact_count o / total_reports o * 100)%float in
  let top := firstEntryPercentage t in
  (determineAlertLevel t o = rojo ↔
     (40 <? hip)%float = true ∨ (60 <? top)%float = true) ∧
  (determineAlertLevel t o = amarillo ↔
     ¬ ((40 <? hip)%float = true ∨ (60 <? top)%float = true) ∧
     ((20 <? hip)%float = true ∨ (40 <? top)%float = true)) ∧
  (determineAlertLevel t o = verde ↔
     ¬ ((40 <? hip)%float = true ∨ (60 <? top)%float = true) ∧
     ¬ ((20 <? hip)%float = true ∨ (40 <? top)%float = true)) ∧
  ((hip =? 40)%float = true → (top <=? 60)%float = true →
     determineAlertLevel t o ≠ rojo).
Proof.
  exact (determineAlertLevel_thresholds
           (trends_of_percentages [60%float]) (overview_of_counts 2 5) eq_refl).
Defined.

(** With no reports at all the high-impact percentage is [0 / 0 * 100],
    which is NaN. *)
Lemma highImpactPercentage_zero_total (o : CommunityOverview) :
  (total_reports o =? 0)%float = true →
  (highest_impact_count o =? 0)%float = true →
  PrimFloat.is_nan (highImpactPercentage o) = true ∧
  ∀ x, (x <? highImpactPercentage o)%float = false.
Proof.
  intros Ht Hh. unfold highImpactPercentage.
  apply eqb_zero in Ht. apply eqb_zero in Hh.
  assert (Hnan : (highest_impact_count o / total_reports o * 100)%float = nan).
  { destruct Ht as [-> | ->], Hh as [-> | ->]; reflexivity. }
  rewrite Hnan. split; [reflexivity |].
  intros x. rewrite FloatAxioms.ltb_spec.
  change (Prim2SF nan) with S754_nan. unfold SFltb, SFcompare.
  destruct (Prim2SF x); reflexivity.
Qed.

(** C2, as the code has it: with [total_reports = 0] and
    [highest_impact_count = 0] the classifier returns a level (it cannot
    raise); the high-impact percentage is NaN, all its comparisons fail, and
    the top attack percentage alone decides: rojo above 60, amarillo above
    40, verde otherwise, so verde when the distribution is absent or empty. *)
Theorem determineAlertLevel_zero_total (t : TendenciasData) (o : CommunityOverview) :
  (total_reports o =? 0)%float = true →
  (highest_impact_count o =? 0)%float = true →
  PrimFloat.is_nan (highImpactPercentage o) = true ∧
  determineAlertLevel t o = level_of_top (firstEntryPercentage t) ∧
  (attack_trends t = None ∨ attack_trends t = Some [] →
   determineAlertLevel t o = verde).
Proof.
  intros Ht Hh.
  destruct (highImpactPercentage_zero_total o Ht Hh) as [Hnan Hcmp].
  split; [exact Hnan |].
  assert (Hlevel : determineAlertLevel t o = level_of_top (firstEntryPercentage t)).
  { unfold determineAlertLevel, level_of_top. rewrite !Hcmp.
    destruct (topAttackPercentage_tests t) as [-> ->]. reflexivity. }
  split; [exact Hlevel |].
  intros Hempty. rewrite Hlevel. unfold firstEntryPercentage.
  destruct Hempty as [-> | ->]; reflexivity.
Qed.

(** The zero-total rule at work on an empty community with a dominant
    attack type in the trend summary. *)
Lemma determineAlertLevel_zero_total_witness :
  let t := trends_of_percentages [50%float] in
  let o := overview_of_counts 0 0 in
  PrimFloat.is_nan (highImpactPercentage o) = true ∧
  determineAlertLevel t o = level_of_top (firstEntryPercentage t) ∧
  (attack_trends t = None ∨ attack_trends t = Some [] →
   determineAlertLevel t o = verde).
Proof.
  exact (determineAlertLevel_zero_total
           (trends_of_percentages [50%float]) (overview_of_counts 0 0)
           eq_refl eq_refl).
Defined.

(** C2 fails as stated: with [total_reports = 0] and
    [highest_impact_count = 0], a trend summary whose first attack type
    holds 70 percent is classified rojo, not verde. *)
Lemma zero_total_classified_rojo :
  total_reports (overview_of_counts 0 0) = 0%float ∧
  highest_impact_count (overview_of_counts 0 0) = 0%float ∧
  determineAlertLevel (trends_of_percentages [70%float]) (overview_of_counts 0 0)
  = rojo.
Proof. repeat split; reflexivity. Qed.

End ComunidadFacts.

(** ** The trend aggregator *)

Module TendenciasFacts.
Import Tendencias.

Lemma countBy_nonneg (key : Report → Z) (k : Z) (reports : list Report) :
  0 ≤ countBy key k reports.
Proof. unfold countBy. lia. Qed.

Lemma countBy_cons (key : Report → Z) (k : Z) (r : Report) (reports : list Report) :
  countBy key k (r :: reports)
  = (if decide (key r = k) then 1 else 0) + countBy key k reports.
Proof.
  unfold countBy. rewrite filter_cons.
  destruct (decide (key r = k)); simpl length; lia.
Qed.

(** Exactly one row of a catalog with unique ids carries a given id of the
    catalog. *)
Lemma no_row_for_foreign_id (k : Z) (catalog : list CatalogEntry) :
  k ∉ id <$> catalog →
  foldr Z.add 0 ((λ e, if decide (k = id e) then 1 else 0) <$> catalog) = 0.
Proof.
  induction catalog as [| e catalog IH]; [done |].
  rewrite !fmap_cons, not_elem_of_cons. intros [Hne Hfresh]. cbn [foldr].
  rewrite (IH Hfresh). destruct (decide (k = id e)); [done | lia].
Qed.

Lemma one_row_per_id (k : Z) (catalog : list CatalogEntry) :
  NoDup (id <$> catalog) →
  k ∈ id <$> catalog →
  foldr Z.add 0 ((λ e, if decide (k = id e) then 1 else 0) <$> catalog) = 1.
Proof.
  induction catalog as [| e catalog IH].
  - intros _ Hin. by apply elem_of_nil in Hin.
  - rewrite !fmap_cons, NoDup_cons, elem_of_cons. intros [Hfresh Hnodup] Hin.
    cbn [foldr]. destruct (decide (k = id e)) as [-> | Hne].
    + rewrite (no_row_for_foreign_id _ _ Hfresh). lia.
    + destruct Hin as [? | Hin]; [done |]. rewrite IH; [lia | done..].
Qed.

(** Under the foreign-key discipline the counts of the groups add up to
    the number of reports. *)
Lemma counts_add_up (key : Report → Z) (catalog : list CatalogEntry)
  (reports : list Report) :
  references_catalog key catalog reports →
  foldr Z.add 0 ((λ e, countBy key (id e) reports) <$> catalog)
  = Z.of_nat (length reports).
Proof.
  intros [Hnodup Hrefs].
  induction Hrefs as [| r reports Hr _ IH].
  - clear Hnodup. induction catalog as [| e catalog IHc]; [done |].
    rewrite fmap_cons. cbn [foldr]. rewrite IHc. reflexivity.
  - pose proof (one_row_per_id (key r) catalog Hnodup Hr) as Hone.
    assert (Hsplit :
      foldr Z.add 0 ((λ e, countBy key (id e) (r :: reports)) <$> catalog)
      = foldr Z.add 0 ((λ e, if decide (key r = id e) then 1 else 0) <$> catalog)
        + foldr Z.add 0 ((λ e, countBy key (id e) reports) <$> catalog)).
    { clear. induction catalog as [| e catalog IHc]; [done |].
      rewrite !fmap_cons. cbn [foldr]. rewrite countBy_cons, IHc. lia. }
    rewrite Hsplit, Hone, IH. cbn [length]. lia.
Qed.

(** Rounding to the nearest tenth: the error is at most half a tenth, and
    an empty group is not rounded at all. *)
Lemma roundedPercentage_bounds (c t : Z) :
  0 < t → 0 ≤ c →
  let p := roundedPercentage c t in
  2 * t * p ≤ 2000 * c + t ∧ 2000 * c + t < 2 * t * p + 2 * t ∧
  (c = 0 → p = 0).
Proof.
  intros Ht Hc. cbv zeta. unfold roundedPercentage.
  destruct (Z.eqb_spec t 0) as [-> | _]; [lia |].
  pose proof (Z.mul_div_le (2000 * c + t) (2 * t) ltac:(lia)) as Hle.
  pose proof (Z.mul_succ_div_gt (2000 * c + t) (2 * t) ltac:(lia)) as Hgt.
  split; [lia |]. split; [lia |].
  intros ->. apply Z.div_small. lia.
Qed.

(** The sum of the rounded percentages of a list of group counts, against
    the sum of the counts: half a tenth of slack per occupied group. *)
Lemma rounded_sum_bounds (t : Z) (counts : list Z) :
  0 < t → Forall (λ c, 0 ≤ c) counts →
  let sum_p := foldr Z.add 0 ((λ c, roundedPercentage c t) <$> counts) in
  let sum_c := foldr Z.add 0 counts in
  let k := Z.of_nat (length (filter (λ c, 0 < c) counts)) in
  2 * t * sum_p ≤ 2000 * sum_c + t * k ∧ 2000 * sum_c - t * k ≤ 2 * t * sum_p.
Proof.
  intros Ht Hcounts. cbv zeta.
  induction Hcounts as [| c counts Hc _ IH].
  - cbn [fmap list_fmap foldr filter list_filter length]. lia.
  - destruct (roundedPercentage_bounds c t Ht Hc) as (Hle & Hgt & Hzero).
    rewrite fmap_cons, filter_cons. cbn [foldr].
    destruct (decide (0 < c)) as [Hpos | Hnpos].
    + cbn [length]. rewrite Nat2Z.inj_succ. lia.
    + assert (c = 0) as -> by lia. rewrite (Hzero eq_refl). lia.
Qed.

Lemma distribution_percentages (key : Report → Z) (catalog : list CatalogEntry)
  (reports : list Report) :
  percentage <$> distribution key catalog reports
  = (λ c, roundedPercentage c (Z.of_nat (length reports)))
      <$> ((λ e, countBy key (id e) reports) <$> catalog).
Proof. unfold distribution. rewrite <- !list_fmap_compose. done. Qed.

Lemma distribution_occupied (key : Report → Z) (catalog : list CatalogEntry)
  (reports : list Report) :
  occupied (distribution key catalog reports)
  = Z.of_nat (length (filter (λ c, 0 < c)
                        ((λ e, countBy key (id e) reports) <$> catalog))).
Proof.
  unfold occupied, distribution. f_equal.
  induction catalog as [| e catalog IH]; [done |].
  rewrite !fmap_cons, !filter_cons. cbn [count].
  destruct (decide (0 < countBy key (id e) reports)); cbn [length]; by rewrite IH.
Qed.

(** No more groups are occupied than the catalog has rows. *)
Lemma occupied_le_catalog (key : Report → Z) (catalog : list CatalogEntry)
  (reports : list Report) :
  occupied (distribution key catalog reports) ≤ Z.of_nat (length catalog).
Proof.
  unfold occupied, distribution.
  pose proof (length_filter (λ e, 0 < count e)
    ((λ e, {| entry_id := id e; entry_name := name e;
              count := countBy key (id e) reports;
              percentage := roundedPercentage (countBy key (id e) reports)
                              (Z.of_nat (length reports)) |}) <$> catalog)) as Hle.
  rewrite length_fmap in Hle. lia.
Qed.

(** The sum of the percentages of a distribution over a non-empty window
    is within half a tenth per occupied group of 100.0. *)
Lemma distribution_sum (key : Report → Z) (catalog : list CatalogEntry)
  (reports : list Report) :
  references_catalog key catalog reports →
  reports ≠ [] →
  let d := distribution key catalog reports in
  2 * Z.abs (percentageSum d - 1000) ≤ occupied d.
Proof.
  intros Hrefs Hne. cbv zeta.
  assert (Ht : 0 < Z.of_nat (length reports)) by (destruct reports; simpl; [done | lia]).
  unfold percentageSum. rewrite distribution_percentages, distribution_occupied.
  pose proof (rounded_sum_bounds (Z.of_nat (length reports))
                ((λ e, countBy key (id e) reports) <$> catalog) Ht) as Hsum.
  cbv zeta in Hsum. rewrite (counts_add_up key catalog reports Hrefs) in Hsum.
  destruct Hsum as [Hup Hdown].
  { apply Forall_fmap, Forall_forall. intros e _. apply countBy_nonneg. }
  nia.
Qed.

(** An empty window gives zero counts and zero percentages. *)
Lemma distribution_empty (key : Report → Z) (catalog : list CatalogEntry) :
  Forall (λ e, count e = 0 ∧ percentage e = 0) (distribution key catalog []) ∧
  percentageSum (distribution key catalog []) = 0.
Proof.
  unfold percentageSum, distribution. split.
  - apply Forall_fmap, Forall_forall. intros e _. done.
  - induction catalog as [| e catalog IH]; [done |].
    rewrite !fmap_cons. cbn [foldr]. rewrite IH. reflexivity.
Qed.

Lemma oneOfEach_references_catalog :
  references_catalog attackType seedAttackTypes oneOfEach.
Proof.
  split.
  - apply (bool_decide_unpack _). vm_compute. reflexivity.
  - apply (bool_decide_unpack _). vm_compute. reflexivity.
Qed.

(** C3, as the rounding allows it: over a non-empty window whose reports
    reference the catalog, the percentages of the attack-type distribution
    sum to 100.0 within half a tenth per attack type that has a report, hence
    within one tenth when at most three attack types occur; over an empty
    window [getTrends] returns distributions whose counts and percentages
    are all zero. *)
Theorem getTrends_percentage_sum (p : Period)
  (attackTypes impacts : list CatalogEntry) (reports : list Report) :
  references_catalog attackType attackTypes reports →
  reports ≠ [] →
  let d := attackTypeDistribution (getTrends p attackTypes impacts reports) in
  let empty := getTrends p attackTypes impacts [] in
  2 * Z.abs (percentageSum d - 1000) ≤ occupied d ∧
  occupied d ≤ Z.of_nat (length attackTypes) ∧
  (occupied d ≤ 3 → Z.abs (percentageSum d - 1000) ≤ 1) ∧
  Forall (λ e, count e = 0 ∧ percentage e = 0) (attackTypeDistribution empty) ∧
  Forall (λ e, count e = 0 ∧ percentage e = 0) (impactDistribution empty) ∧
  percentageSum (attackTypeDistribution empty) = 0 ∧
  percentageSum (impactDistribution empty) = 0.
Proof.
  intros Hrefs Hne. cbv zeta. cbn [getTrends attackTypeDistribution impactDistribution].
  pose proof (distribution_sum attackType attackTypes reports Hrefs Hne) as Hsum.
  cbv zeta in Hsum.
  pose proof (occupied_le_catalog attackType attackTypes reports) as Hocc.
  destruct (distribution_empty attackType attackTypes) as [Hzero_a Hsum_a].
  destruct (distribution_empty impact impacts) as [Hzero_i Hsum_i].
  split; [exact Hsum |]. split; [exact Hocc |]. split; [lia |]. done.
Qed.

(** The bound at work on one report of each built-in attack type. *)
Lemma getTrends_percentage_sum_witness :
  let d := attackTypeDistribution
             (getTrends days7 seedAttackTypes seedImpacts oneOfEach) in
  let empty := getTrends days7 seedAttackTypes seedImpacts [] in
  2 * Z.abs (percentageSum d - 1000) ≤ occupied d ∧
  occupied d ≤ Z.of_nat (length seedAttackTypes) ∧
  (occupied d ≤ 3 → Z.abs (percentageSum d - 1000) ≤ 1) ∧
  Forall (λ e, count e = 0 ∧ percentage e = 0) (attackTypeDistribution empty) ∧
  Forall (λ e, count e = 0 ∧ percentage e = 0) (impactDistribution empty) ∧
  percentageSum (attackTypeDistribution empty) = 0 ∧
  percentageSum (impactDistribution empty) = 0.
Proof.
  refine (getTrends_percentage_sum days7 seedAttackTypes seedImpacts oneOfEach
            oneOfEach_references_catalog _).
  discriminate.
Defined.

(** C3 fails as stated: one report of each of the six attack types gives
    six shares of 16.7, which sum to 100.2. *)
Lemma one_of_each_sums_to_100_2 :
  references_catalog attackType seedAttackTypes oneOfEach ∧
  length oneOfEach = 6%nat ∧
  percentage <$> attackTypeDistribution
                   (getTrends days7 seedAttackTypes seedImpacts oneOfEach)
  = [167; 167; 167; 167; 167; 167] ∧
  percentageSum
    (attackTypeDistribution (getTrends days7 seedAttackTypes seedImpacts oneOfEach))
  = 1002.
Proof.
  split; [exact oneOfEach_references_catalog |].
  repeat split; vm_compute; reflexivity.
Qed.

(** The bound is attained: of sixteen reports, thirteen of one attack
    type and one of each of three others, the four shares are rounded up by
    half a tenth each. *)
Example four_groups_attain_the_bound :
  let reports := replicate 13 (reportOf 0 1)
                 ++ [reportOf 0 2; reportOf 0 3; reportOf 0 4] in
  let d := attackTypeDistribution
             (getTrends days30 seedAttackTypes seedImpacts reports) in
  percentage <$> d = [813; 63; 63; 63; 0; 0] ∧
  occupied d = 4 ∧ percentageSum d = 1002.
Proof. repeat split. Qed.

Lemma preferred_refl (e : DistributionEntry) : preferred e e.
Proof. unfold preferred. lia. Qed.

Lemma beats_spec (a b : DistributionEntry) :
  beats a b = true ↔
  count b < count a ∨ (count a = count b ∧ entry_id a < entry_id b).
Proof.
  unfold beats.
  destruct (Z.ltb_spec (count b) (count a)), (Z.eqb_spec (count a) (count b)),
    (Z.ltb_spec (entry_id a) (entry_id b)); simpl; intuition (congruence || lia).
Qed.

(** One pass keeps an entry that is preferred to every entry seen. *)
Lemma mainThreatEntry_from (b : DistributionEntry) (d : list DistributionEntry) :
  ∃ r,
    foldl (λ best e,
             match best with
             | None => Some e
             | Some b => if beats e b then Some e else Some b
             end) (Some b) d = Some r ∧
    r ∈ b :: d ∧ ∀ x, x ∈ b :: d → preferred r x.
Proof.
  revert b. induction d as [| e d IH]; intros b.
  - exists b. cbn [foldl]. split; [done |]. split; [by left |].
    intros x Hx. apply list_elem_of_singleton in Hx as ->. apply preferred_refl.
  - cbn [foldl]. destruct (beats e b) eqn:Hbeats.
    + destruct (IH e) as (r & Hfold & Hin & Hpref).
      exists r. split; [exact Hfold |]. split; [by right |].
      intros x Hx. apply elem_of_cons in Hx as [-> | Hx]; [| by apply Hpref].
      apply beats_spec in Hbeats. specialize (Hpref e ltac:(by left)).
      unfold preferred in *. lia.
    + destruct (IH b) as (r & Hfold & Hin & Hpref).
      exists r. split; [exact Hfold |]. split.
      { apply elem_of_cons in Hin as [-> | Hin]; [by left | by do 2 right]. }
      intros x Hx. apply elem_of_cons in Hx as [-> | Hx].
      { apply Hpref. by left. }
      apply elem_of_cons in Hx as [-> | Hx]; [| apply Hpref; by right].
      assert (Hnot : ¬ (count b < count e ∨
                         (count e = count b ∧ entry_id e < entry_id b))).
      { rewrite <- beats_spec. congruence. }
      specialize (Hpref b ltac:(by left)). unfold preferred in *. lia.
Qed.

Lemma mainThreatEntry_preferred (d : list DistributionEntry) :
  d ≠ [] →
  ∃ r, mainThreatEntry d = Some r ∧ r ∈ d ∧ ∀ x, x ∈ d → preferred r x.
Proof.
  destruct d as [| b d]; [done |]. intros _.
  unfold mainThreatEntry. cbn [foldl]. apply mainThreatEntry_from.
Qed.

(** C5: over a non-empty window whose reports reference the catalog, the
    main threat is the name of an attack type of the catalog that has a
    report, that no attack type exceeds in report count, and that has the
    lowest id among the attack types with the same count. *)
Theorem mainThreat_highest_count (p : Period)
  (attackTypes impacts : list CatalogEntry) (reports : list Report) :
  references_catalog attackType attackTypes reports →
  reports ≠ [] →
  ∃ c, c ∈ attackTypes ∧
       mainThreat (getTrends p attackTypes impacts reports) = name c ∧
       0 < countBy attackType (id c) reports ∧
       ∀ c', c' ∈ attackTypes →
             countBy attackType (id c') reports ≤ countBy attackType (id c) reports ∧
             (countBy attackType (id c') reports = countBy attackType (id c) reports →
              id c ≤ id c').
Proof.
  intros [Hnodup Hrefs] Hne.
  destruct reports as [| r0 reports]; [done |].
  apply Forall_cons in Hrefs as [Hr0 Hrefs].
  apply list_elem_of_fmap in Hr0 as (c0 & Hid0 & Hc0).
  set (rs := r0 :: reports) in *.
  destruct (mainThreatEntry_preferred (distribution attackType attackTypes rs))
    as (r & Hmain & Hin & Hpref).
  { unfold distribution. intros Hnil. apply fmap_nil_inv in Hnil.
    rewrite Hnil in Hc0. by apply elem_of_nil in Hc0. }
  unfold distribution in Hin. apply list_elem_of_fmap in Hin as (c & -> & Hc).
  exists c. split; [exact Hc |].
  split. { cbn [getTrends mainThreat]. rewrite Hmain. reflexivity. }
  assert (Hall : ∀ c', c' ∈ attackTypes →
            countBy attackType (id c') rs ≤ countBy attackType (id c) rs ∧
            (countBy attackType (id c') rs = countBy attackType (id c) rs →
             id c ≤ id c')).
  { intros c' Hc'.
    specialize (Hpref _ (list_elem_of_fmap_2 _ _ _ Hc')).
    unfold preferred in Hpref. cbn [count entry_id] in Hpref. lia. }
  split; [| exact Hall].
  destruct (Hall c0 Hc0) as [Hle _].
  assert (0 < countBy attackType (id c0) rs); [| lia].
  unfold rs. rewrite countBy_cons.
  destruct (decide (attackType r0 = id c0)); [| congruence].
  pose proof (countBy_nonneg attackType (id c0) reports). lia.
Qed.

(** The main threat of a window in which SMS and llamada tie at two
    reports and email has one. *)
Lemma mainThreat_highest_count_witness :
  let reports := [reportOf 1 4; reportOf 2 2; reportOf 3 1; reportOf 4 2;
                  reportOf 5 4] in
  ∃ c, c ∈ seedAttackTypes ∧
       mainThreat (getTrends days7 seedAttackTypes seedImpacts reports) = name c ∧
       0 < countBy attackType (id c) reports ∧
       ∀ c', c' ∈ seedAttackTypes →
             countBy attackType (id c') reports ≤ countBy attackType (id c) reports ∧
             (countBy attackType (id c') reports = countBy attackType (id c) reports →
              id c ≤ id c').
Proof.
  refine (mainThreat_highest_count days7 seedAttackTypes seedImpacts
            [reportOf 1 4; reportOf 2 2; reportOf 3 1; reportOf 4 2; reportOf 5 4]
            _ _).
  - split; apply (bool_decide_unpack _); vm_compute; reflexivity.
  - discriminate.
Defined.

Example mainThreat_tie_goes_to_lowest_id :
  mainThreat (getTrends days7 seedAttackTypes seedImpacts
                [reportOf 1 4; reportOf 2 2; reportOf 3 1; reportOf 4 2;
                 reportOf 5 4])
  = "SMS".
Proof. reflexivity. Qed.

End TendenciasFacts.

(** ** The catalog cache *)

Module CatalogsFacts.
Import JS Types Catalogs CatalogsResponse.

(** Unfolding the methods down to the fields and the world. *)
Ltac run :=
  unfold getAttackTypeName, getImpactName, getStatusName, getCatalogMaps,
    refreshCatalogs, getCatalogs, fetchCatalogs, try_catch, property_of_maps,
    throw, request, Date_now, get_this, set_catalogCache, set_catalogMaps,
    set_lastCacheTime, mbind, M_bind, mret, M_ret;
  cbv beta; cbn [catalogCache catalogMaps lastCacheTime].

(** A call that finds a cache younger than the timeout answers from it:
    no request is sent and no field changes. *)
Lemma getCatalogs_cached `{CatalogUtils} (w : World) (this : Service)
  (c : CatalogData) :
  catalogCache this = Some c →
  isCacheValid this (clock w) = true →
  getCatalogs w this = Build_Outcome (Normal c) this 0%nat.
Proof. intros Hcache Hvalid. run. rewrite Hcache, Hvalid. reflexivity. Qed.

(** The [try] statement of [getCatalogs] sends exactly one request,
    whatever comes back. *)
Lemma fetchCatalogs_one_request `{CatalogUtils} (now : Z) (w : World)
  (this : Service) :
  fetches (try_catch (fetchCatalogs now) (λ _, mret createDefaultCatalogs) w this)
  = 1%nat.
Proof.
  run.
  destruct (network w "/reportes/catalogs") as [response | e]; [| reflexivity].
  destruct (data response) as [d |];
    repeat (case_bool_decide || case_match); simplify_eq; reflexivity.
Qed.

(** A call that finds no cache, or one that has reached the timeout, sends
    exactly one request. *)
Lemma getCatalogs_refetch `{CatalogUtils} (w : World) (this : Service) :
  catalogCache this = None ∨ isCacheValid this (clock w) = false →
  fetches (getCatalogs w this) = 1%nat.
Proof.
  intros Hstale.
  pose proof (fetchCatalogs_one_request (clock w) w this) as Hfetch.
  unfold getCatalogs, mbind, M_bind, Date_now, get_this.
  destruct (catalogCache this) as [c |].
  - destruct Hstale as [? | ->]; [done |].
    destruct (try_catch _ _ w this) as [c' this' n]. cbn in *. lia.
  - destruct (try_catch _ _ w this) as [c' this' n]. cbn in *. lia.
Qed.

(** When the request throws, [getCatalogs] answers with the default
    catalogs and leaves every field as it was. *)
Lemma getCatalogs_offline `{CatalogUtils} (now : Z) :
  getCatalogs (offline now) newService
  = Build_Outcome (Normal createDefaultCatalogs) newService 1%nat.
Proof. reflexivity. Qed.

(** [getCatalogs] never throws, and whenever its one request throws it
    answers with the default catalogs and leaves every field as it was. *)
Theorem getCatalogs_falls_back `{CatalogUtils} (w : World) (this : Service)
  (e : Thrown) :
  catalogCache this = None ∨ isCacheValid this (clock w) = false →
  network w "/reportes/catalogs" = Throw e →
  getCatalogs w this = Build_Outcome (Normal createDefaultCatalogs) this 1%nat.
Proof.
  intros Hstale Hnet. run.
  destruct (catalogCache this) as [c |];
    [destruct Hstale as [? | ->]; [done |] |]; cbv beta; rewrite Hnet; reflexivity.
Qed.

(** A first call while the network is down. *)
Lemma getCatalogs_falls_back_witness :
  let H := specCatalogUtils in
  getCatalogs (offline 1000) newService
  = Build_Outcome (Normal createDefaultCatalogs) newService 1%nat.
Proof.
  exact (@getCatalogs_falls_back specCatalogUtils (offline 1000) newService
           (Error "Error de conexión de red") (or_introl eq_refl) eq_refl).
Defined.

(** The [try] statement of [getCatalogs] catches whatever is thrown. *)
Lemma fetchCatalogs_caught `{CatalogUtils} (now : Z) (w : World) (this : Service) :
  ∃ c,
    completion (try_catch (fetchCatalogs now) (λ _, mret createDefaultCatalogs) w this)
    = Normal c.
Proof.
  run.
  destruct (network w "/reportes/catalogs") as [response | e]; [| by eexists].
  destruct (data response) as [d |];
    repeat (case_bool_decide || case_match); simplify_eq; by eexists.
Qed.

(** [getCatalogs] completes normally in every world and on every state of
    the service. *)
Theorem getCatalogs_never_throws `{CatalogUtils} (w : World) (this : Service) :
  ∃ c, completion (getCatalogs w this) = Normal c.
Proof.
  destruct (fetchCatalogs_caught (clock w) w this) as [c Hc].
  unfold getCatalogs, mbind, M_bind, Date_now, get_this.
  destruct (catalogCache this) as [c0 |];
    [destruct (isCacheValid this (clock w)); [by eexists |] |];
    destruct (try_catch _ _ w this) as [c' this' n]; cbn in *; subst; by eexists.
Qed.

(** A successful fetch is the answer to a request that returned. *)
Lemma fetched_at_network `{CatalogUtils} (w : World) (before after : Service)
  (c : CatalogData) :
  fetched_at w before after c →
  ∃ response, network w "/reportes/catalogs" = Normal response.
Proof.
  intros (Hcall & Hcache & Htime). revert Hcall. run.
  destruct (catalogCache before) as [c0 |] eqn:Hbefore;
    [destruct (isCacheValid before (clock w)) eqn:Hvalid |]; cbv beta.
  - intros [=].
  - destruct (network w "/reportes/catalogs") as [response | e]; [by eexists |].
    intros [= _ <-].
    unfold isCacheValid in Hvalid. rewrite Htime, Z.sub_diag in Hvalid.
    discriminate Hvalid.
  - destruct (network w "/reportes/catalogs") as [response | e]; [by eexists |].
    intros [= _ <-]. congruence.
Qed.

Lemma serving_fetched_at (now : Z) (c : CatalogData) :
  let H := specCatalogUtils in
  fetched_at (serving now c) newService
    {| catalogCache := Some c; catalogMaps := Some (createLookupMaps c);
       lastCacheTime := now |} c.
Proof. destruct c. repeat split. Qed.

(** A call that finds no cache, or one that has reached the timeout,
    sends one request; it stores what the request returned, with its maps
    and the clock reading, when the body holds catalogs, and otherwise, or
    when the request throws, answers with the default catalogs and leaves
    every field as it was. *)
Lemma getCatalogs_fetch `{CatalogUtils} (w : World) (this : Service) :
  catalogCache this = None ∨ isCacheValid this (clock w) = false →
  getCatalogs w this =
  match network w "/reportes/catalogs" with
  | Normal response =>
      match accepted response with
      | Some c =>
          Build_Outcome (Normal c)
            {| catalogCache := Some c; catalogMaps := Some (createLookupMaps c);
               lastCacheTime := clock w |} 1%nat
      | None => Build_Outcome (Normal createDefaultCatalogs) this 1%nat
      end
  | Throw _ => Build_Outcome (Normal createDefaultCatalogs) this 1%nat
  end.
Proof.
  intros Hstale. unfold accepted. run.
  destruct (catalogCache this) as [c0 |];
    [destruct Hstale as [? | ->]; [done |] |]; cbv beta;
    destruct (network w "/reportes/catalogs")
      as [[[[[da |] [di |] [ds |]] |] [[ta |] [ti |] [ts |]]] | e];
    try reflexivity;
    cbn [data top_level res_attackTypes res_impacts res_statuses];
    repeat (first [ rewrite bool_decide_eq_true_2 by (by eexists)
                  | rewrite bool_decide_eq_false_2 by (by intros [? ?]) ]);
    reflexivity.
Qed.

(** C8: the timeout is five minutes; a call that has to fetch, finding no
    cache or an expired one, and whose request returns catalogs, sends one
    request and stores them with the clock reading; after it, a call made
    less than the timeout later returns the same catalogs without a request
    and without touching the fields, and a call made once the timeout has
    elapsed sends exactly one request. *)
Theorem getCatalogs_ttl `{CatalogUtils} (w1 w2 : World) (before : Service)
  (response : CatalogResponse) (c : CatalogData) :
  catalogCache before = None ∨ isCacheValid before (clock w1) = false →
  network w1 "/reportes/catalogs" = Normal response →
  accepted response = Some c →
  let after := final (getCatalogs w1 before) in
  CACHE_TIMEOUT = 300000 ∧
  getCatalogs w1 before = Build_Outcome (Normal c) after 1%nat ∧
  after = {| catalogCache := Some c; catalogMaps := Some (createLookupMaps c);
             lastCacheTime := clock w1 |} ∧
  (clock w2 - clock w1 < CACHE_TIMEOUT →
   getCatalogs w2 after = Build_Outcome (Normal c) after 0%nat) ∧
  (CACHE_TIMEOUT ≤ clock w2 - clock w1 →
   fetches (getCatalogs w2 after) = 1%nat).
Proof.
  intros Hstale Hnet Hbody. cbv zeta.
  rewrite (getCatalogs_fetch w1 before Hstale), Hnet, Hbody. cbn [final].
  split; [reflexivity |]. split; [reflexivity |]. split; [reflexivity |]. split.
  - intros Hyoung. apply getCatalogs_cached; [reflexivity |].
    unfold isCacheValid. cbn [lastCacheTime]. apply Z.ltb_lt. exact Hyoung.
  - intros Hold. apply getCatalogs_refetch. right.
    unfold isCacheValid. cbn [lastCacheTime]. apply Z.ltb_ge. exact Hold.
Qed.

(** The timeout at work on a service whose empty catalogs of clock reading
    1000 have expired: the call at 400000 fetches the default catalogs from
    a body without [data]; then a call one millisecond before the timeout,
    and one at the timeout. *)
Lemma getCatalogs_ttl_witness :
  let H := specCatalogUtils in
  let before := {| catalogCache := Some emptyCatalogs;
                   catalogMaps := Some (createLookupMaps emptyCatalogs);
                   lastCacheTime := 1000 |} in
  let w1 := servingAtTopLevel 400000 defaultCatalogs in
  let after := final (getCatalogs w1 before) in
  CACHE_TIMEOUT = 300000 ∧
  getCatalogs w1 before = Build_Outcome (Normal defaultCatalogs) after 1%nat ∧
  after = {| catalogCache := Some defaultCatalogs;
             catalogMaps := Some (createLookupMaps defaultCatalogs);
             lastCacheTime := 400000 |} ∧
  (clock (offline 699999) - clock w1 < CACHE_TIMEOUT →
   getCatalogs (offline 699999) after
   = Build_Outcome (Normal defaultCatalogs) after 0%nat) ∧
  (CACHE_TIMEOUT ≤ clock (offline 699999) - clock w1 →
   fetches (getCatalogs (offline 699999) after) = 1%nat).
Proof.
  exact (@getCatalogs_ttl specCatalogUtils
           (servingAtTopLevel 400000 defaultCatalogs) (offline 699999)
           {| catalogCache := Some emptyCatalogs;
              catalogMaps := Some (@createLookupMaps specCatalogUtils emptyCatalogs);
              lastCacheTime := 1000 |}
           _ defaultCatalogs (or_intror eq_refl) eq_refl eq_refl).
Defined.

Example second_call_within_ttl :
  let H := specCatalogUtils in
  let first := getCatalogs (serving 1000 defaultCatalogs) newService in
  let second := getCatalogs (offline 300999) (final first) in
  fetches first = 1%nat ∧ fetches second = 0%nat ∧
  completion second = completion first.
Proof. repeat split. Qed.

Example call_at_ttl_refetches :
  let H := specCatalogUtils in
  let first := getCatalogs (serving 1000 defaultCatalogs) newService in
  let later := getCatalogs (serving 301000 defaultCatalogs) (final first) in
  fetches later = 1%nat ∧ lastCacheTime (final later) = 301000.
Proof. repeat split. Qed.

(** C7, where the code departs from it: on a service that has not yet
    fetched its catalogs, when the request throws, [getCatalogs] does fall
    back to the default catalogs, but it stores no maps, and the name
    resolvers then read a property of [null] and throw. *)
Theorem getAttackTypeName_offline_throws `{CatalogUtils} (now id : Z) :
  completion (getCatalogs (offline now) newService) = Normal createDefaultCatalogs ∧
  catalogMaps (final (getCatalogs (offline now) newService)) = None ∧
  completion (getAttackTypeName id (offline now) newService)
  = Throw (TypeError "Cannot read properties of null (reading 'attackTypeMap')") ∧
  completion (getImpactName id (offline now) newService)
  = Throw (TypeError "Cannot read properties of null (reading 'impactMap')") ∧
  completion (getStatusName id (offline now) newService)
  = Throw (TypeError "Cannot read properties of null (reading 'statusMap')").
Proof. repeat split. Qed.

(** Once the maps are loaded the resolvers read them without a request and
    never throw. *)
Lemma getAttackTypeName_loaded `{CatalogUtils} (w : World) (this : Service)
  (maps : CatalogMaps) (id : Z) :
  catalogMaps this = Some maps →
  getAttackTypeName id w this
  = Build_Outcome (Normal (or_string (attackTypeMap maps !! id) "Desconocido"))
      this 0%nat.
Proof. intros Hmaps. run. rewrite Hmaps. cbn. rewrite Hmaps. reflexivity. Qed.

Lemma getImpactName_loaded `{CatalogUtils} (w : World) (this : Service)
  (maps : CatalogMaps) (id : Z) :
  catalogMaps this = Some maps →
  getImpactName id w this
  = Build_Outcome (Normal (or_string (impactMap maps !! id) "Desconocido"))
      this 0%nat.
Proof. intros Hmaps. run. rewrite Hmaps. cbn. rewrite Hmaps. reflexivity. Qed.

Lemma getStatusName_loaded `{CatalogUtils} (w : World) (this : Service)
  (maps : CatalogMaps) (id : Z) :
  catalogMaps this = Some maps →
  getStatusName id w this
  = Build_Outcome (Normal (or_string (statusMap maps !! id) "Desconocido"))
      this 0%nat.
Proof. intros Hmaps. run. rewrite Hmaps. cbn. rewrite Hmaps. reflexivity. Qed.

End CatalogsFacts.

(** ** The filter and report transformer *)

Module TransformerFacts.
Import JS Types Transformer.

Lemma find_by_id (catalog : list CatalogEntry) (i : Z) :
  i ∈ id <$> catalog →
  ∃ e, List.find (λ x, bool_decide (id x = i)) catalog = Some e ∧
       e ∈ catalog ∧ id e = i.
Proof.
  induction catalog as [| x catalog IH]; rewrite ?fmap_cons.
  - intros Hin. by apply elem_of_nil in Hin.
  - intros Hin. cbn [List.find]. case_bool_decide as Hx.
    + exists x. split; [done |]. split; [by left | done].
    + apply elem_of_cons in Hin as [Heq | Hin]; [congruence |].
      destruct (IH Hin) as (e & Hfind & He & Hid).
      exists e. split; [done |]. split; [by right | done].
Qed.

(** With unique names, looking a row up by its own name finds that row. *)
Lemma find_by_name (catalog : list CatalogEntry) (e : CatalogEntry) :
  NoDup (name <$> catalog) →
  e ∈ catalog →
  List.find (λ x, bool_decide (name x = name e)) catalog = Some e.
Proof.
  induction catalog as [| x catalog IH]; rewrite ?fmap_cons.
  - intros _ Hin. by apply elem_of_nil in Hin.
  - rewrite NoDup_cons. intros [Hfresh Hnodup] Hin. cbn [List.find].
    apply elem_of_cons in Hin as [-> | Hin].
    + by rewrite bool_decide_eq_true_2.
    + case_bool_decide as Hx; [| by apply IH].
      exfalso. apply Hfresh. rewrite Hx. by apply list_elem_of_fmap_2.
Qed.

Lemma truthy_string_nonempty (s : string) : s ≠ "" → truthy_string s = true.
Proof. destruct s; [done | reflexivity]. Qed.

Lemma truthy_int_nonzero (n : Z) : n ≠ 0 → truthy_int n = true.
Proof. unfold truthy_int. intros Hn. by destruct (Z.eqb_spec n 0). Qed.

(** One filter field survives the two translations. *)
Lemma idOfName_nameOfId (catalog : list CatalogEntry) (field : option Z) :
  invertible catalog →
  references catalog field →
  idOfName catalog (nameOfId catalog field) = field.
Proof.
  intros [Hnodup Htruthy] Href. destruct field as [i |]; [| reflexivity].
  destruct (find_by_id catalog i (Href i eq_refl)) as (e & Hfind & He & Hid).
  rewrite Forall_forall in Htruthy. destruct (Htruthy e He) as [Hname Hnz].
  unfold nameOfId. rewrite truthy_int_nonzero by congruence.
  rewrite Hfind. cbn [fmap option_fmap option_map].
  unfold idOfName. rewrite (truthy_string_nonempty _ Hname).
  rewrite (find_by_name catalog e Hnodup He). cbn. congruence.
Qed.

(** C4, as the code has it: when the three catalogs have unique, non-empty
    names and non-zero ids, and the status, attack type and impact of the
    normalized filters occur in them, translating to the legacy filters and
    back returns the original filters without their [page] and [limit],
    hence the original filters when these two are unset. *)
Theorem fromLegacyFilters_toLegacyFilters (catalogData : CatalogData)
  (filters : NormalizedSearchFilters) :
  invertible (statuses catalogData) →
  invertible (attackTypes catalogData) →
  invertible (impacts catalogData) →
  references (statuses catalogData) (status filters) →
  references (attackTypes catalogData) (attack_type filters) →
  references (impacts catalogData) (impact filters) →
  fromLegacyFilters catalogData (toLegacyFilters catalogData filters)
  = withoutPaging filters ∧
  (page filters = None → limit filters = None →
   fromLegacyFilters catalogData (toLegacyFilters catalogData filters) = filters).
Proof.
  intros Hs Ha Hi Hrs Hra Hri.
  assert (Hround : fromLegacyFilters catalogData (toLegacyFilters catalogData filters)
                   = withoutPaging filters).
  { unfold fromLegacyFilters, toLegacyFilters, withoutPaging.
    cbn [legacy_query legacy_status attackType impactLevel isAnonymous dateFrom dateTo].
    rewrite (idOfName_nameOfId _ _ Hs Hrs), (idOfName_nameOfId _ _ Ha Hra),
      (idOfName_nameOfId _ _ Hi Hri).
    reflexivity. }
  split; [exact Hround |].
  intros Hpage Hlimit. rewrite Hround. unfold withoutPaging.
  destruct filters; cbn in *. congruence.
Qed.

Lemma defaultCatalogs_invertible :
  invertible (statuses Catalogs.defaultCatalogs) ∧
  invertible (attackTypes Catalogs.defaultCatalogs) ∧
  invertible (impacts Catalogs.defaultCatalogs).
Proof.
  repeat split; apply (bool_decide_unpack _); vm_compute; reflexivity.
Qed.

Lemma secondPageOfNew_references :
  references (statuses Catalogs.defaultCatalogs) (status secondPageOfNew) ∧
  references (attackTypes Catalogs.defaultCatalogs) (attack_type secondPageOfNew) ∧
  references (impacts Catalogs.defaultCatalogs) (impact secondPageOfNew).
Proof.
  repeat split; intros i [= <-]. apply (bool_decide_unpack _). vm_compute. reflexivity.
Qed.

(** The round trip at work on the filters for the second page of new
    reports, under the default catalogs. *)
Lemma fromLegacyFilters_toLegacyFilters_witness :
  fromLegacyFilters Catalogs.defaultCatalogs
    (toLegacyFilters Catalogs.defaultCatalogs secondPageOfNew)
  = withoutPaging secondPageOfNew ∧
  (page secondPageOfNew = None → limit secondPageOfNew = None →
   fromLegacyFilters Catalogs.defaultCatalogs
     (toLegacyFilters Catalogs.defaultCatalogs secondPageOfNew)
   = secondPageOfNew).
Proof.
  exact (fromLegacyFilters_toLegacyFilters Catalogs.defaultCatalogs secondPageOfNew
           (proj1 defaultCatalogs_invertible)
           (proj1 (proj2 defaultCatalogs_invertible))
           (proj2 (proj2 defaultCatalogs_invertible))
           (proj1 secondPageOfNew_references)
           (proj1 (proj2 secondPageOfNew_references))
           (proj2 (proj2 secondPageOfNew_references))).
Defined.

(** C4 fails as stated.  Filters that ask for page 2 come back without
    their page and limit, although their status is in the catalog; and two
    reports that differ in [sos_cont] have the same legacy shape, so that
    nothing can translate it back to the report it came from. *)
Lemma round_trip_loses_paging :
  status secondPageOfNew = Some 1 ∧
  1 ∈ id <$> statuses Catalogs.defaultCatalogs ∧
  page secondPageOfNew = Some 2 ∧
  page (fromLegacyFilters Catalogs.defaultCatalogs
          (toLegacyFilters Catalogs.defaultCatalogs secondPageOfNew)) = None ∧
  fromLegacyFilters Catalogs.defaultCatalogs
    (toLegacyFilters Catalogs.defaultCatalogs secondPageOfNew) ≠ secondPageOfNew ∧
  toLegacyReport Catalogs.defaultCatalogs qrReport
  = toLegacyReport Catalogs.defaultCatalogs qrReportWithLink ∧
  stripDerivedFields qrReport ≠ stripDerivedFields qrReportWithLink.
Proof.
  split; [reflexivity |]. split.
  { apply (bool_decide_unpack _). vm_compute. reflexivity. }
  repeat split; try reflexivity; discriminate.
Qed.

(** A legacy name that no row of the catalog carries leaves the
    normalized field unset, and the other fields are handed on. *)
Theorem fromLegacyFilters_unknown_name (catalogData : CatalogData)
  (legacyFilters : SearchFilters) (n : string) :
  legacy_status legacyFilters = Some n →
  n ∉ name <$> statuses catalogData →
  status (fromLegacyFilters catalogData legacyFilters) = None ∧
  query (fromLegacyFilters catalogData legacyFilters) = legacy_query legacyFilters ∧
  is_anonymous (fromLegacyFilters catalogData legacyFilters)
  = isAnonymous legacyFilters ∧
  date_from (fromLegacyFilters catalogData legacyFilters) = dateFrom legacyFilters ∧
  date_to (fromLegacyFilters catalogData legacyFilters) = dateTo legacyFilters.
Proof.
  intros Hn Hfresh. repeat split.
  cbn [fromLegacyFilters status]. rewrite Hn. unfold idOfName.
  destruct (truthy_string n); [| reflexivity].
  destruct (List.find _ _) as [e |] eqn:Hfind; [| reflexivity].
  apply find_some in Hfind as [He Hname].
  apply bool_decide_eq_true_1 in Hname. exfalso. apply Hfresh.
  rewrite <- Hname. apply list_elem_of_fmap_2, list_elem_of_In, He.
Qed.

(** Legacy filters on a status the default catalogs do not have. *)
Lemma fromLegacyFilters_unknown_name_witness :
  let legacyFilters :=
    {| legacy_query := Some "premio"; legacy_status := Some "archivado";
       attackType := None; impactLevel := None; isAnonymous := Some true;
       dateFrom := None; dateTo := None; location := None |} in
  status (fromLegacyFilters Catalogs.defaultCatalogs legacyFilters) = None ∧
  query (fromLegacyFilters Catalogs.defaultCatalogs legacyFilters)
  = legacy_query legacyFilters ∧
  is_anonymous (fromLegacyFilters Catalogs.defaultCatalogs legacyFilters)
  = isAnonymous legacyFilters ∧
  date_from (fromLegacyFilters Catalogs.defaultCatalogs legacyFilters)
  = dateFrom legacyFilters ∧
  date_to (fromLegacyFilters Catalogs.defaultCatalogs legacyFilters)
  = dateTo legacyFilters.
Proof.
  refine (fromLegacyFilters_unknown_name Catalogs.defaultCatalogs
            {| legacy_query := Some "premio"; legacy_status := Some "archivado";
               attackType := None; impactLevel := None; isAnonymous := Some true;
               dateFrom := None; dateTo := None; location := None |}
            "archivado" eq_refl _).
  apply (bool_decide_unpack _). vm_compute. reflexivity.
Defined.

(** Why ids must be truthy and names non-empty: a status of id 0, and a
    status whose name is empty, are both dropped on the way. *)
Example round_trip_drops_id_zero :
  status (fromLegacyFilters statusesFromZero
            (toLegacyFilters statusesFromZero (onlyStatus 0))) = None.
Proof. reflexivity. Qed.

Example round_trip_drops_empty_name :
  status (fromLegacyFilters statusesUnnamed
            (toLegacyFilters statusesUnnamed (onlyStatus 1))) = None.
Proof. reflexivity. Qed.

(** No function from legacy reports can give back every report without
    its derived fields. *)
Lemma toLegacyReport_has_no_inverse (catalogData : CatalogData)
  (back : LegacyReport → NormalizedReport) :
  ¬ ∀ report, back (toLegacyReport catalogData report) = stripDerivedFields report.
Proof.
  intros Hback.
  pose proof (Hback qrReport) as H1. pose proof (Hback qrReportWithLink) as H2.
  assert (Hsame : toLegacyReport catalogData qrReport
                  = toLegacyReport catalogData qrReportWithLink) by reflexivity.
  rewrite Hsame, H2 in H1. discriminate H1.
Qed.

(** [toLegacyReport] looks nothing up: the three names of the legacy
    report are the ones the report carries. *)
Lemma toLegacyReport_names (catalogData : CatalogData) (report : ReportWithDetails) :
  l_attack_type (toLegacyReport catalogData report) = attack_type_name report ∧
  l_impact_level (toLegacyReport catalogData report) = impact_name report ∧
  l_status (toLegacyReport catalogData report) = status_name report.
Proof. repeat split. Qed.

End TransformerFacts.

(** ** Names of unknown catalog ids *)

Module ResolverFacts.
Import JS Types Catalogs Transformer CatalogsFacts.

(** C6, as the code has it: once the catalog maps are loaded, each of
    [getAttackTypeName], [getImpactName] and [getStatusName] returns
    "Desconocido" for an id that its map does not hold, without a request
    and without throwing; [toLegacyReport] never throws either, but it
    substitutes nothing: it hands on the names the report carries. *)
Theorem unknown_ids_resolve_to_Desconocido `{CatalogUtils} (w : World)
  (this : Service) (maps : CatalogMaps) (id : Z) :
  catalogMaps this = Some maps →
  (attackTypeMap maps !! id = None →
   getAttackTypeName id w this = Build_Outcome (Normal "Desconocido") this 0%nat) ∧
  (impactMap maps !! id = None →
   getImpactName id w this = Build_Outcome (Normal "Desconocido") this 0%nat) ∧
  (statusMap maps !! id = None →
   getStatusName id w this = Build_Outcome (Normal "Desconocido") this 0%nat) ∧
  (∀ catalogData report,
     l_attack_type (toLegacyReport catalogData report) = attack_type_name report ∧
     l_impact_level (toLegacyReport catalogData report) = impact_name report ∧
     l_status (toLegacyReport catalogData report) = status_name report).
Proof.
  intros Hmaps.
  split; [intros Hnone; rewrite (getAttackTypeName_loaded w this maps id Hmaps), Hnone; done |].
  split; [intros Hnone; rewrite (getImpactName_loaded w this maps id Hmaps), Hnone; done |].
  split; [intros Hnone; rewrite (getStatusName_loaded w this maps id Hmaps), Hnone; done |].
  intros catalogData report. repeat split.
Qed.

(** The service after a fetch of the default catalogs. *)
Lemma unknown_ids_resolve_to_Desconocido_witness :
  let H := specCatalogUtils in
  let maps := createLookupMaps defaultCatalogs in
  let this := {| catalogCache := Some defaultCatalogs; catalogMaps := Some maps;
                 lastCacheTime := 1000 |} in
  (attackTypeMap maps !! 7 = None →
   getAttackTypeName 7 (offline 2000) this
   = Build_Outcome (Normal "Desconocido") this 0%nat) ∧
  (impactMap maps !! 7 = None →
   getImpactName 7 (offline 2000) this
   = Build_Outcome (Normal "Desconocido") this 0%nat) ∧
  (statusMap maps !! 7 = None →
   getStatusName 7 (offline 2000) this
   = Build_Outcome (Normal "Desconocido") this 0%nat) ∧
  (∀ catalogData report,
     l_attack_type (toLegacyReport catalogData report) = attack_type_name report ∧
     l_impact_level (toLegacyReport catalogData report) = impact_name report ∧
     l_status (toLegacyReport catalogData report) = status_name report).
Proof.
  exact (@unknown_ids_resolve_to_Desconocido specCatalogUtils (offline 2000)
           {| catalogCache := Some defaultCatalogs;
              catalogMaps := Some (@createLookupMaps specCatalogUtils defaultCatalogs);
              lastCacheTime := 1000 |}
           (@createLookupMaps specCatalogUtils defaultCatalogs) 7 eq_refl).
Defined.

(** C6 fails as stated for [toLegacyReport]: attack type 7 is in no
    default map, the resolver calls it "Desconocido", and the legacy report
    calls it by the name the report carries. *)
Lemma toLegacyReport_keeps_unknown_name :
  let H := specCatalogUtils in
  let maps := createLookupMaps defaultCatalogs in
  let this := {| catalogCache := Some defaultCatalogs; catalogMaps := Some maps;
                 lastCacheTime := 1000 |} in
  report_attack_type (base qrReport) = 7 ∧
  attackTypeMap maps !! 7 = None ∧
  completion (getAttackTypeName 7 (offline 2000) this) = Normal "Desconocido" ∧
  l_attack_type (toLegacyReport defaultCatalogs qrReport) = "codigo_qr".
Proof. cbv zeta. repeat split; vm_compute; reflexivity. Qed.

End ResolverFacts.

(** ** The anonymous-access guard *)

Module GuardFacts.
Import JS Guard.

(** The guard lets every request through. *)
Lemma canActivate_true (services : Services) (req : Request) :
  (canActivate services req).1 = true.
Proof.
  unfold canActivate.
  repeat (case_match || case_bool_decide); reflexivity.
Qed.

(** The guard leaves the header as it found it. *)
Lemma canActivate_authorization (services : Services) (req : Request) :
  authorization (canActivate services req).2 = authorization req.
Proof.
  unfold canActivate.
  repeat (case_match || case_bool_decide); reflexivity.
Qed.

(** Without a header the request proceeds as the anonymous user. *)
Lemma canActivate_no_header (services : Services) (u : option User) :
  canActivate services {| authorization := None; user := u |}
  = (true, {| authorization := None; user := Some anonymousUser |}).
Proof. reflexivity. Qed.

(** With a scheme other than Bearer the request proceeds as the anonymous
    user. *)
Lemma canActivate_other_scheme (services : Services) (req : Request) :
  split " " (default "" (authorization req)) !! 0%nat ≠ Some "Bearer" →
  canActivate services req = (true, attach req anonymousUser).
Proof.
  intros Hscheme. unfold canActivate.
  rewrite (bool_decide_eq_true_2 _ Hscheme). reflexivity.
Qed.

(** With a Bearer token that fails verification the request proceeds as
    the anonymous user. *)
Lemma canActivate_rejected_token (services : Services) (req : Request)
  (token secret : string) (e : Thrown) :
  split " " (default "" (authorization req)) !! 0%nat = Some "Bearer" →
  split " " (default "" (authorization req)) !! 1%nat = Some token →
  truthy_string token = true →
  getJwtSecret services = Normal secret →
  verifyAsync services token secret = Throw e →
  canActivate services req = (true, attach req anonymousUser).
Proof.
  intros Hscheme Htoken Htruthy Hsecret Hverify. unfold canActivate.
  rewrite Hscheme, Htoken. unfold default, from_option, Datatypes.id.
  rewrite Htruthy, Hsecret, Hverify.
  rewrite bool_decide_eq_false_2; [reflexivity | by intros []].
Qed.

(** With a verified access token the request proceeds as the user of the
    token. *)
Lemma canActivate_access_token (services : Services) (req : Request)
  (token secret : string) (payload : AccessPayload) :
  split " " (default "" (authorization req)) !! 0%nat = Some "Bearer" →
  split " " (default "" (authorization req)) !! 1%nat = Some token →
  truthy_string token = true →
  getJwtSecret services = Normal secret →
  verifyAsync services token secret = Normal payload →
  type payload = "access" →
  canActivate services req
  = (true, attach req {| userId := sub payload; user_profile := profile payload;
                         raw := payload |}).
Proof.
  intros Hscheme Htoken Htruthy Hsecret Hverify Htype. unfold canActivate.
  rewrite Hscheme, Htoken. unfold default, from_option, Datatypes.id.
  rewrite Htruthy, Hsecret, Hverify.
  rewrite bool_decide_eq_false_2 by (by intros []).
  rewrite (bool_decide_eq_true_2 _ Htype). reflexivity.
Qed.

(** A verified token of any other type leaves the request as it came. *)
Lemma canActivate_other_type (services : Services) (req : Request)
  (token secret : string) (payload : AccessPayload) :
  split " " (default "" (authorization req)) !! 0%nat = Some "Bearer" →
  split " " (default "" (authorization req)) !! 1%nat = Some token →
  truthy_string token = true →
  getJwtSecret services = Normal secret →
  verifyAsync services token secret = Normal payload →
  type payload ≠ "access" →
  canActivate services req = (true, req).
Proof.
  intros Hscheme Htoken Htruthy Hsecret Hverify Htype. unfold canActivate.
  rewrite Hscheme, Htoken. unfold default, from_option, Datatypes.id.
  rewrite Htruthy, Hsecret, Hverify.
  rewrite bool_decide_eq_false_2 by (by intros []).
  rewrite (bool_decide_eq_false_2 _ Htype). reflexivity.
Qed.

(** Every request that carries no usable Bearer token, or whose token
    cannot be verified, proceeds as the anonymous user. *)
Theorem canActivate_falls_back_to_anonymous (services : Services) (req : Request) :
  let parts := split " " (default "" (authorization req)) in
  let token := default "" (parts !! 1%nat) in
  parts !! 0%nat ≠ Some "Bearer"
  ∨ truthy_string token = false
  ∨ (∃ e, getJwtSecret services = Throw e)
  ∨ (∃ secret e, getJwtSecret services = Normal secret ∧
                 verifyAsync services token secret = Throw e) →
  canActivate services req = (true, attach req anonymousUser).
Proof.
  cbv zeta. unfold canActivate.
  intros [Hscheme | [Htoken | [[e Hsecret] | (secret & e & Hsecret & Hverify)]]].
  - rewrite (bool_decide_eq_true_2 _ Hscheme). reflexivity.
  - rewrite Htoken, orb_true_r. reflexivity.
  - rewrite Hsecret. by destruct (_ || _).
  - rewrite Hsecret, Hverify. by destruct (_ || _).
Qed.

(** A request whose token the verifier rejects. *)
Lemma canActivate_falls_back_to_anonymous_witness :
  canActivate (accepting "t0k3n" nonAccessPayload)
    {| authorization := Some "Bearer forged"; user := None |}
  = (true, attach {| authorization := Some "Bearer forged"; user := None |}
             anonymousUser).
Proof.
  apply (canActivate_falls_back_to_anonymous (accepting "t0k3n" nonAccessPayload)
           {| authorization := Some "Bearer forged"; user := None |}).
  right. right. right. exists "secret", (Error "invalid token"). split; reflexivity.
Defined.

(** C9, where the code departs from it: a request that carries a verified
    token whose type is not "access" (a refresh token) is let through with
    no user attached. *)
Theorem canActivate_refresh_token_no_user :
  canActivate (accepting "r3fr3sh" nonAccessPayload)
    {| authorization := Some "Bearer r3fr3sh"; user := None |}
  = (true, {| authorization := Some "Bearer r3fr3sh"; user := None |}).
Proof. reflexivity. Qed.

End GuardFacts.

(** ** The report list of the mobile client *)

Module ReportsListFacts.
Import ReportsList.

#[local] Instance mayPrecede_newerFirst_total : Total (mayPrecede newerFirst).
Proof.
  intros a b. unfold mayPrecede, newerFirst.
  destruct (Z.gtb_spec (createdAt a) (createdAt b)),
    (Z.gtb_spec (createdAt b) (createdAt a)); auto; lia.
Qed.

#[local] Instance mayPrecede_newerFirst_trans : Transitive (mayPrecede newerFirst).
Proof.
  intros a b c. unfold mayPrecede, newerFirst.
  destruct (Z.gtb_spec (createdAt b) (createdAt a)),
    (Z.gtb_spec (createdAt c) (createdAt b)),
    (Z.gtb_spec (createdAt c) (createdAt a)); auto; lia.
Qed.

Lemma mayPrecede_newerFirst (a b : Report) :
  mayPrecede newerFirst a b ↔ createdAt b ≤ createdAt a.
Proof.
  unfold mayPrecede, newerFirst.
  destruct (Z.gtb_spec (createdAt b) (createdAt a)); split; (lia || congruence).
Qed.

Lemma StronglySorted_weaken {A} (R R' : relation A) (l : list A) :
  (∀ x y, R x y → R' x y) → StronglySorted R l → StronglySorted R' l.
Proof.
  intros Himpl. induction 1 as [| x l _ IH Hall]; constructor; [exact IH |].
  eapply Forall_impl; [exact Hall |]. intros y. apply Himpl.
Qed.

(** Sorting by the closure puts the newest report first, whatever the
    list. *)
Lemma sorted_by_newerFirst (l : list Report) :
  newestFirst (sorted_by newerFirst l) ∧ sorted_by newerFirst l ≡ₚ l.
Proof.
  split.
  - unfold newestFirst, sorted_by.
    apply (StronglySorted_weaken (mayPrecede newerFirst)).
    + intros x y. apply mayPrecede_newerFirst.
    + apply StronglySorted_merge_sort; apply _.
  - apply merge_sort_Permutation.
Qed.

(** C10: after [applyFilters], whatever the reports, the selected filter
    and the search query, [filteredReports] is ordered by [createdAt],
    newest first. *)
Theorem applyFilters_newestFirst
  (lowercased : string → string) (contains : string → string → bool)
  (trimmingWhitespacesAndNewlines : string → string)
  (getAttackTypeDisplayName : Report → string) (vm : ViewModel) :
  newestFirst
    (filteredReports
       (applyFilters lowercased contains trimmingWhitespacesAndNewlines
          getAttackTypeDisplayName vm)).
Proof.
  unfold applyFilters. cbn [filteredReports]. apply sorted_by_newerFirst.
Qed.

(** [applyFilters] shows reports of the base list only, and touches
    nothing but [filteredReports]. *)
Lemma applyFilters_frame
  (lowercased : string → string) (contains : string → string → bool)
  (trimmingWhitespacesAndNewlines : string → string)
  (getAttackTypeDisplayName : Report → string) (vm : ViewModel) :
  let vm' := applyFilters lowercased contains trimmingWhitespacesAndNewlines
               getAttackTypeDisplayName vm in
  allReports vm' = allReports vm ∧ userReports vm' = userReports vm ∧
  selectedFilter vm' = selectedFilter vm ∧ searchQuery vm' = searchQuery vm ∧
  ∀ r, r ∈ filteredReports vm' → r ∈ allReports vm ∨ r ∈ userReports vm.
Proof.
  cbv zeta. repeat split. intros r. unfold applyFilters. cbn [filteredReports].
  destruct (sorted_by_newerFirst
    (if negb (bool_decide (trimmingWhitespacesAndNewlines (searchQuery vm) = ""))
     then filter (λ r, matchesQuery lowercased contains getAttackTypeDisplayName
                         (lowercased (searchQuery vm)) r = true)
            match selectedFilter vm with
            | todos => allReports vm
            | misReportes => userReports vm
            | _ => filter (λ r, status r = rawValue (selectedFilter vm)) (allReports vm)
            end
     else match selectedFilter vm with
          | todos => allReports vm
          | misReportes => userReports vm
          | _ => filter (λ r, status r = rawValue (selectedFilter vm)) (allReports vm)
          end)) as [_ Hperm].
  rewrite Hperm. clear Hperm.
  destruct (negb _); rewrite ?list_elem_of_filter;
    destruct (selectedFilter vm); rewrite ?list_elem_of_filter; tauto.
Qed.

End ReportsListFacts.

(** ** Translating legacy filters and back *)

Module TransformerExtraFacts.
Import JS Types Transformer TransformerExtra TransformerFacts.

Lemma find_by_name_first (catalog : list CatalogEntry) (n : string) :
  n ∈ name <$> catalog →
  ∃ e, List.find (λ x, bool_decide (name x = n)) catalog = Some e ∧
       e ∈ catalog ∧ name e = n.
Proof.
  induction catalog as [| x catalog IH]; rewrite ?fmap_cons.
  - intros Hin. by apply elem_of_nil in Hin.
  - intros Hin. cbn [List.find]. case_bool_decide as Hx.
    + exists x. split; [done |]. split; [by left | done].
    + apply elem_of_cons in Hin as [Heq | Hin]; [congruence |].
      destruct (IH Hin) as (e & Hfind & He & Hname).
      exists e. split; [done |]. split; [by right | done].
Qed.

(** With unique ids, looking a row up by its own id finds that row. *)
Lemma find_by_id_unique (catalog : list CatalogEntry) (e : CatalogEntry) :
  NoDup (id <$> catalog) →
  e ∈ catalog →
  List.find (λ x, bool_decide (id x = id e)) catalog = Some e.
Proof.
  induction catalog as [| x catalog IH]; rewrite ?fmap_cons.
  - intros _ Hin. by apply elem_of_nil in Hin.
  - rewrite NoDup_cons. intros [Hfresh Hnodup] Hin. cbn [List.find].
    apply elem_of_cons in Hin as [-> | Hin].
    + by rewrite bool_decide_eq_true_2.
    + case_bool_decide as Hx; [| by apply IH].
      exfalso. apply Hfresh. rewrite Hx. by apply list_elem_of_fmap_2.
Qed.

Lemma nameOfId_idOfName (catalog : list CatalogEntry) (field : option string) :
  invertible_by_id catalog →
  names catalog field →
  nameOfId catalog (idOfName catalog field) = field.
Proof.
  intros [Hnodup Htruthy] Href. destruct field as [n |]; [| reflexivity].
  destruct (find_by_name_first catalog n (Href n eq_refl)) as (e & Hfind & He & Hname).
  rewrite Forall_forall in Htruthy. destruct (Htruthy e He) as [Hne Hnz].
  unfold idOfName. rewrite truthy_string_nonempty by congruence.
  rewrite Hfind. cbn [fmap option_fmap option_map].
  unfold nameOfId. rewrite (truthy_int_nonzero _ Hnz).
  rewrite (find_by_id_unique catalog e Hnodup He). cbn. congruence.
Qed.

(** Legacy filters come back from the translation to normalized filters
    and back without their [location], and otherwise as they were, when the
    three catalogs have unique, non-zero ids and non-empty names and the
    status, attack type and impact level named by the filters are names of
    the catalogs; so they come back unchanged exactly when they have no
    [location]. *)
Theorem toLegacyFilters_fromLegacyFilters (catalogData : CatalogData)
  (legacyFilters : SearchFilters) :
  invertible_by_id (statuses catalogData) →
  invertible_by_id (attackTypes catalogData) →
  invertible_by_id (impacts catalogData) →
  names (statuses catalogData) (legacy_status legacyFilters) →
  names (attackTypes catalogData) (attackType legacyFilters) →
  names (impacts catalogData) (impactLevel legacyFilters) →
  toLegacyFilters catalogData (fromLegacyFilters catalogData legacyFilters)
  = withoutLocation legacyFilters ∧
  (toLegacyFilters catalogData (fromLegacyFilters catalogData legacyFilters)
   = legacyFilters ↔ location legacyFilters = None).
Proof.
  intros Hs Ha Hi Hns Hna Hni.
  assert (Hround :
    toLegacyFilters catalogData (fromLegacyFilters catalogData legacyFilters)
    = withoutLocation legacyFilters).
  { unfold toLegacyFilters, fromLegacyFilters, withoutLocation.
    cbn [query status attack_type impact is_anonymous date_from date_to].
    by rewrite (nameOfId_idOfName _ _ Hs Hns), (nameOfId_idOfName _ _ Ha Hna),
      (nameOfId_idOfName _ _ Hi Hni). }
  split; [exact Hround |]. rewrite Hround. unfold withoutLocation.
  destruct legacyFilters as [q s a i n f t l]. cbn. split.
  - by intros [=].
  - by intros ->.
Qed.

Lemma defaultCatalogs_invertible_by_id :
  invertible_by_id (statuses Catalogs.defaultCatalogs) ∧
  invertible_by_id (attackTypes Catalogs.defaultCatalogs) ∧
  invertible_by_id (impacts Catalogs.defaultCatalogs).
Proof.
  repeat split; apply (bool_decide_unpack _); vm_compute; reflexivity.
Qed.

Lemma closedBySMS_names :
  names (statuses Catalogs.defaultCatalogs) (legacy_status closedBySMS) ∧
  names (attackTypes Catalogs.defaultCatalogs) (attackType closedBySMS) ∧
  names (impacts Catalogs.defaultCatalogs) (impactLevel closedBySMS).
Proof.
  repeat split; intros n [= <-]; apply (bool_decide_unpack _); vm_compute;
    reflexivity.
Qed.

(** Closed reports from Monterrey that came in by SMS, under the default
    catalogs: the location is lost on the way. *)
Lemma toLegacyFilters_fromLegacyFilters_witness :
  toLegacyFilters Catalogs.defaultCatalogs
    (fromLegacyFilters Catalogs.defaultCatalogs closedBySMS)
  = withoutLocation closedBySMS ∧
  (toLegacyFilters Catalogs.defaultCatalogs
     (fromLegacyFilters Catalogs.defaultCatalogs closedBySMS)
   = closedBySMS ↔ location closedBySMS = None).
Proof.
  exact (toLegacyFilters_fromLegacyFilters Catalogs.defaultCatalogs closedBySMS
           (proj1 defaultCatalogs_invertible_by_id)
           (proj1 (proj2 defaultCatalogs_invertible_by_id))
           (proj2 (proj2 defaultCatalogs_invertible_by_id))
           (proj1 closedBySMS_names)
           (proj1 (proj2 closedBySMS_names))
           (proj2 (proj2 closedBySMS_names))).
Defined.

Lemma idOfName_sound (catalog : list CatalogEntry) (field : option string) (i : Z) :
  idOfName catalog field = Some i →
  ∃ e, e ∈ catalog ∧ id e = i ∧ field = Some (name e) ∧ name e ≠ "".
Proof.
  unfold idOfName. destruct field as [n |]; [| done].
  destruct (truthy_string n) eqn:Htruthy; [| done].
  destruct (List.find _ _) as [e |] eqn:Hfind; [| done].
  intros [= <-]. apply find_some in Hfind as [He Hname].
  apply bool_decide_eq_true_1 in Hname. exists e.
  split; [by apply list_elem_of_In |]. split; [done |]. split; [by rewrite Hname |].
  rewrite Hname. intros ->. discriminate Htruthy.
Qed.

Lemma nameOfId_sound (catalog : list CatalogEntry) (field : option Z) (n : string) :
  nameOfId catalog field = Some n →
  ∃ e, e ∈ catalog ∧ name e = n ∧ field = Some (id e) ∧ id e ≠ 0.
Proof.
  unfold nameOfId. destruct field as [i |]; [| done].
  destruct (truthy_int i) eqn:Htruthy; [| done].
  destruct (List.find _ _) as [e |] eqn:Hfind; [| done].
  intros [= <-]. apply find_some in Hfind as [He Hid].
  apply bool_decide_eq_true_1 in Hid. exists e.
  split; [by apply list_elem_of_In |]. split; [done |]. split; [by rewrite Hid |].
  rewrite Hid. intros ->. discriminate Htruthy.
Qed.

(** Neither translation invents a catalog reference: every id that
    [fromLegacyFilters] sets is the id of a row of the matching catalog
    whose name is the legacy value, and every name that [toLegacyFilters]
    sets is the name of a row whose id is the normalized value. *)
Theorem translations_stay_in_catalog (catalogData : CatalogData)
  (legacyFilters : SearchFilters) (normalizedFilters : NormalizedSearchFilters) :
  let normalized := fromLegacyFilters catalogData legacyFilters in
  let legacy := toLegacyFilters catalogData normalizedFilters in
  (∀ i, status normalized = Some i →
     ∃ e, e ∈ statuses catalogData ∧ id e = i ∧
          legacy_status legacyFilters = Some (name e)) ∧
  (∀ i, attack_type normalized = Some i →
     ∃ e, e ∈ attackTypes catalogData ∧ id e = i ∧
          attackType legacyFilters = Some (name e)) ∧
  (∀ i, impact normalized = Some i →
     ∃ e, e ∈ impacts catalogData ∧ id e = i ∧
          impactLevel legacyFilters = Some (name e)) ∧
  (∀ n, legacy_status legacy = Some n →
     ∃ e, e ∈ statuses catalogData ∧ name e = n ∧
          status normalizedFilters = Some (id e)) ∧
  (∀ n, attackType legacy = Some n →
     ∃ e, e ∈ attackTypes catalogData ∧ name e = n ∧
          attack_type normalizedFilters = Some (id e)) ∧
  (∀ n, impactLevel legacy = Some n →
     ∃ e, e ∈ impacts catalogData ∧ name e = n ∧
          impact normalizedFilters = Some (id e)).
Proof.
  cbv zeta. unfold fromLegacyFilters, toLegacyFilters.
  cbn [status attack_type impact legacy_status attackType impactLevel].
  repeat split; intros x Hx;
    (apply idOfName_sound in Hx || apply nameOfId_sound in Hx);
    destruct Hx as (e & He & H1 & H2 & _); eauto.
Qed.

End TransformerExtraFacts.

(** ** Sequences of calls to the catalog methods *)

Module CatalogsExtraFacts.
Import JS Types Catalogs CatalogsFacts CatalogsExtra.

(** [getCatalogs] either leaves the fields as they were or stores the
    fetched catalogs, their maps and the clock reading together. *)
Lemma getCatalogs_final `{CatalogUtils} (w : World) (this : Service) :
  final (getCatalogs w this) = this ∨
  ∃ c, final (getCatalogs w this)
       = {| catalogCache := Some c; catalogMaps := Some (createLookupMaps c);
            lastCacheTime := clock w |}.
Proof.
  assert (Hfetch : ∀ now,
    final (try_catch (fetchCatalogs now) (λ _, mret createDefaultCatalogs) w this)
    = this ∨
    ∃ c, final (try_catch (fetchCatalogs now) (λ _, mret createDefaultCatalogs) w this)
         = {| catalogCache := Some c; catalogMaps := Some (createLookupMaps c);
              lastCacheTime := now |}).
  { intros now. run.
    destruct (network w "/reportes/catalogs") as [response | e]; [| by left].
    destruct (data response) as [d |];
      repeat (case_bool_decide || case_match); simplify_eq;
      (by left) || (right; by eexists). }
  specialize (Hfetch (clock w)).
  unfold getCatalogs, mbind, M_bind, Date_now, get_this.
  destruct (catalogCache this) as [c0 |];
    [destruct (isCacheValid this (clock w)); [by left |] |];
    destruct (try_catch _ _ w this) as [c' this' n]; exact Hfetch.
Qed.

Lemma getCatalogs_coherent `{CatalogUtils} (w : World) (this : Service) :
  coherent this → coherent (final (getCatalogs w this)).
Proof.
  intros Hco. destruct (getCatalogs_final w this) as [-> | [c ->]]; [done |].
  split; [reflexivity | done].
Qed.

Lemma getCatalogMaps_final `{CatalogUtils} (w : World) (this : Service) :
  final (getCatalogMaps w this) = this ∨
  final (getCatalogMaps w this) = final (getCatalogs w this).
Proof.
  unfold getCatalogMaps, mbind, M_bind, get_this, mret, M_ret.
  case_bool_decide; [by left |]. right.
  by destruct (getCatalogs w this) as [[c | e] this' n].
Qed.

Lemma getCatalogMaps_coherent `{CatalogUtils} (w : World) (this : Service) :
  coherent this → coherent (final (getCatalogMaps w this)).
Proof.
  intros Hco. destruct (getCatalogMaps_final w this) as [-> | ->]; [done |].
  by apply getCatalogs_coherent.
Qed.

Lemma resolver_final `{CatalogUtils} {A} (w : World) (this : Service)
  (property : string) (get : CatalogMaps → A) (k : A → string) :
  final ((maps ← getCatalogMaps;
          m ← property_of_maps maps property get;
          mret (k m)) w this)
  = final (getCatalogMaps w this).
Proof.
  unfold mbind, M_bind, property_of_maps, throw, mret, M_ret.
  by destruct (getCatalogMaps w this) as [[[maps |] | e] this' n].
Qed.

Lemma refreshCatalogs_final `{CatalogUtils} (w : World) (this : Service) :
  final (refreshCatalogs w this) = final (getCatalogs w newService).
Proof.
  unfold refreshCatalogs, mbind, M_bind, set_catalogCache, set_catalogMaps,
    set_lastCacheTime, mret, M_ret.
  cbn [catalogCache catalogMaps lastCacheTime].
  change {| catalogCache := None; catalogMaps := None; lastCacheTime := 0 |}
    with newService.
  by destruct (getCatalogs w newService) as [[c | e] this' n].
Qed.

Lemma newService_coherent `{CatalogUtils} : coherent newService.
Proof. split; reflexivity. Qed.

Lemma after_call_coherent `{CatalogUtils} (this : Service) (cw : Call * World) :
  coherent this → coherent (after_call this cw).
Proof.
  intros Hco. destruct cw as [[| | | id | id | id] w]; cbn [after_call].
  - by apply getCatalogs_coherent.
  - by apply getCatalogMaps_coherent.
  - rewrite refreshCatalogs_final. apply getCatalogs_coherent, newService_coherent.
  - unfold getAttackTypeName. rewrite resolver_final. by apply getCatalogMaps_coherent.
  - unfold getImpactName. rewrite resolver_final. by apply getCatalogMaps_coherent.
  - unfold getStatusName. rewrite resolver_final. by apply getCatalogMaps_coherent.
Qed.

(** Whatever catalog methods are called on a new service, in whatever
    worlds, the maps stay those of the cached catalogs, and a service
    without cached catalogs has no maps and the time stamp 0. *)
Theorem cache_fields_stay_coherent `{CatalogUtils} (calls : list (Call * World)) :
  let this := after_calls newService calls in
  catalogMaps this = createLookupMaps <$> catalogCache this ∧
  (catalogCache this = None →
   catalogMaps this = None ∧ lastCacheTime this = 0).
Proof.
  cbv zeta.
  assert (Hco : coherent (after_calls newService calls)).
  { unfold after_calls. generalize newService_coherent.
    generalize newService. induction calls as [| cw calls IH]; intros this Hco.
    - exact Hco.
    - cbn [foldl]. apply IH. by apply after_call_coherent. }
  destruct Hco as [Hmaps Htime]. split; [exact Hmaps |].
  intros Hnone. split; [by rewrite Hmaps, Hnone | by apply Htime].
Qed.

(** [refreshCatalogs] sends exactly one request, whatever the cache
    holds; when that request throws it completes normally all the same and
    leaves the service without catalogs and without maps, so that the name
    resolvers of a service that could resolve names before now throw. *)
Theorem refreshCatalogs_offline `{CatalogUtils} (w w' : World) (this : Service)
  (e e' : Thrown) (id : Z) :
  network w "/reportes/catalogs" = Throw e →
  network w' "/reportes/catalogs" = Throw e' →
  refreshCatalogs w this = Build_Outcome (Normal ()) newService 1%nat ∧
  completion (getAttackTypeName id w' (final (refreshCatalogs w this)))
  = Throw (TypeError "Cannot read properties of null (reading 'attackTypeMap')").
Proof.
  intros Hnet Hnet'.
  assert (Hrefresh :
    refreshCatalogs w this = Build_Outcome (Normal ()) newService 1%nat).
  { run. cbv beta. rewrite Hnet. reflexivity. }
  split; [exact Hrefresh |]. rewrite Hrefresh. cbn [final].
  unfold newService. run. cbn. rewrite Hnet'. reflexivity.
Qed.

(** A service with loaded catalogs that is refreshed while offline. *)
Lemma refreshCatalogs_offline_witness :
  let H := specCatalogUtils in
  let this := {| catalogCache := Some defaultCatalogs;
                 catalogMaps := Some (createLookupMaps defaultCatalogs);
                 lastCacheTime := 1000 |} in
  refreshCatalogs (offline 2000) this = Build_Outcome (Normal ()) newService 1%nat ∧
  completion (getAttackTypeName 1 (offline 3000)
                (final (refreshCatalogs (offline 2000) this)))
  = Throw (TypeError "Cannot read properties of null (reading 'attackTypeMap')").
Proof.
  exact (@refreshCatalogs_offline specCatalogUtils (offline 2000) (offline 3000)
           {| catalogCache := Some defaultCatalogs;
              catalogMaps := Some (@createLookupMaps specCatalogUtils defaultCatalogs);
              lastCacheTime := 1000 |}
           (Error "Error de conexión de red") (Error "Error de conexión de red")
           1 eq_refl eq_refl).
Defined.

(** [refreshCatalogs] never throws and sends exactly one request, in
    every world and on every state of the service; nothing cached before
    the call survives it: afterwards the service is either as new or holds
    the catalogs just fetched, their maps and the clock reading of the
    call. *)
Theorem refreshCatalogs_discards_cache `{CatalogUtils} (w : World) (this : Service) :
  completion (refreshCatalogs w this) = Normal () ∧
  fetches (refreshCatalogs w this) = 1%nat ∧
  (final (refreshCatalogs w this) = newService ∨
   ∃ c, final (refreshCatalogs w this)
        = {| catalogCache := Some c; catalogMaps := Some (createLookupMaps c);
             lastCacheTime := clock w |}).
Proof.
  split; [| split].
  - destruct (fetchCatalogs_caught (clock w) w newService) as [c Hc].
    revert Hc. unfold refreshCatalogs, getCatalogs, mbind, M_bind,
      set_catalogCache, set_catalogMaps, set_lastCacheTime, Date_now, get_this,
      mret, M_ret. cbn [catalogCache catalogMaps lastCacheTime].
    change {| catalogCache := None; catalogMaps := None; lastCacheTime := 0 |}
      with newService. cbn [catalogCache newService].
    by destruct (try_catch _ _ w newService) as [[c' | e'] this' n]; intros [=].
  - pose proof (fetchCatalogs_one_request (clock w) w newService) as Hone.
    revert Hone. unfold refreshCatalogs, getCatalogs, mbind, M_bind,
      set_catalogCache, set_catalogMaps, set_lastCacheTime, Date_now, get_this,
      mret, M_ret. cbn [catalogCache catalogMaps lastCacheTime].
    change {| catalogCache := None; catalogMaps := None; lastCacheTime := 0 |}
      with newService. cbn [catalogCache newService].
    destruct (try_catch _ _ w newService) as [[c' | e'] this' n]; cbn;
      intros ->; reflexivity.
  - rewrite refreshCatalogs_final. apply getCatalogs_final.
Qed.

(** The maps do not expire with the cache.  After a successful fetch of
    [c], a call made once the timeout has elapsed while the request throws
    gets the default catalogs from [getCatalogs], while [getAttackTypeName]
    goes on answering from the maps of [c], without a request. *)
Theorem expired_cache_offline `{CatalogUtils} (w1 w2 : World)
  (before after : Service) (c : CatalogData) (e : Thrown) (id : Z) :
  fetched_at w1 before after c →
  CACHE_TIMEOUT ≤ clock w2 - clock w1 →
  network w2 "/reportes/catalogs" = Throw e →
  getCatalogs w2 after = Build_Outcome (Normal createDefaultCatalogs) after 1%nat ∧
  getAttackTypeName id w2 after
  = Build_Outcome
      (Normal (or_string (attackTypeMap (createLookupMaps c) !! id) "Desconocido"))
      after 0%nat.
Proof.
  intros Hfetched Hold Hnet.
  assert (Hmaps : catalogMaps after = Some (createLookupMaps c)).
  { destruct Hfetched as (Hcall & Hcache & Htime).
    destruct (getCatalogs_final w1 before) as [Hsame | [c' Hstored]].
    - rewrite Hcall in Hsame. cbn [final] in Hsame. subst after.
      revert Hcall. run. rewrite Hcache.
      unfold isCacheValid. rewrite Htime, Z.sub_diag. cbn. intros [=].
    - rewrite Hcall in Hstored. cbn [final] in Hstored. subst after.
      cbn in Hcache. by simplify_eq. }
  destruct Hfetched as (_ & Hcache & Htime). split.
  - assert (Hstale : isCacheValid after (clock w2) = false).
    { unfold isCacheValid. rewrite Htime. apply Z.ltb_ge. exact Hold. }
    run. rewrite Hcache, Hstale. cbv beta. rewrite Hnet. reflexivity.
  - run. rewrite Hmaps. cbn. rewrite Hmaps. reflexivity.
Qed.

(** A fetch at clock reading 1000, and the two calls five minutes later
    while offline. *)
Lemma expired_cache_offline_witness :
  let H := specCatalogUtils in
  let after := {| catalogCache := Some defaultCatalogs;
                  catalogMaps := Some (createLookupMaps defaultCatalogs);
                  lastCacheTime := 1000 |} in
  getCatalogs (offline 301000) after
  = Build_Outcome (Normal createDefaultCatalogs) after 1%nat ∧
  getAttackTypeName 2 (offline 301000) after
  = Build_Outcome
      (Normal (or_string (attackTypeMap (createLookupMaps defaultCatalogs) !! 2)
                 "Desconocido"))
      after 0%nat.
Proof.
  exact (@expired_cache_offline specCatalogUtils
           (serving 1000 defaultCatalogs) (offline 301000) newService _
           defaultCatalogs (Error "Error de conexión de red") 2
           (serving_fetched_at 1000 defaultCatalogs) ltac:(vm_compute; discriminate)
           eq_refl).
Defined.

End CatalogsExtraFacts.

(** ** What [applyFilters] shows *)

Module ReportsListExtraFacts.
Import ReportsList ReportsListFacts.

(** [applyFilters] shows exactly the reports of the base list (the user's
    reports under [misReportes], all reports otherwise) that have the
    selected status, when a status is selected, and that match the
    lowercased query, when the query is not blank; it shows each as often
    as the base list holds it, and the whole base list when no status is
    selected and the query is blank. *)
Lemma isStatusFilter_cases (f : ReportFilter) :
  isStatusFilter f = match f with todos | misReportes => false | _ => true end.
Proof. by destruct f. Qed.

Theorem applyFilters_shows_exactly
  (lowercased : string → string) (contains : string → string → bool)
  (trimmingWhitespacesAndNewlines : string → string)
  (getAttackTypeDisplayName : Report → string) (vm : ViewModel) :
  let vm' := applyFilters lowercased contains trimmingWhitespacesAndNewlines
               getAttackTypeDisplayName vm in
  let base := if decide (selectedFilter vm = misReportes) then userReports vm
              else allReports vm in
  (∀ r, r ∈ filteredReports vm' ↔
        r ∈ base ∧
        (isStatusFilter (selectedFilter vm) = true →
         status r = rawValue (selectedFilter vm)) ∧
        (trimmingWhitespacesAndNewlines (searchQuery vm) ≠ "" →
         matchesQuery lowercased contains getAttackTypeDisplayName
           (lowercased (searchQuery vm)) r = true)) ∧
  filteredReports vm' ⊆+ base ∧
  (isStatusFilter (selectedFilter vm) = false →
   trimmingWhitespacesAndNewlines (searchQuery vm) = "" →
   filteredReports vm' ≡ₚ base).
Proof.
  cbv zeta. unfold applyFilters. cbn [filteredReports].
  set (chosen := match selectedFilter vm with
                 | todos => allReports vm
                 | misReportes => userReports vm
                 | _ => filter (λ r, status r = rawValue (selectedFilter vm))
                          (allReports vm)
                 end).
  set (searched := if negb (bool_decide
                              (trimmingWhitespacesAndNewlines (searchQuery vm) = ""))
                   then filter (λ r, matchesQuery lowercased contains
                                       getAttackTypeDisplayName
                                       (lowercased (searchQuery vm)) r = true) chosen
                   else chosen).
  destruct (sorted_by_newerFirst searched) as [_ Hperm].
  rewrite isStatusFilter_cases.
  split; [| split].
  - intros r. rewrite Hperm. subst searched chosen.
    case_bool_decide as Hblank; cbn [negb]; rewrite ?list_elem_of_filter;
      destruct (selectedFilter vm); case_decide; try done;
      rewrite ?list_elem_of_filter; cbn [rawValue]; intuition congruence.
  - rewrite Hperm. subst searched chosen.
    destruct (negb _); destruct (selectedFilter vm); case_decide; try done;
      repeat (etrans; [apply sublist_submseteq, sublist_filter |]); done.
  - intros Hstatus Hblank. rewrite Hperm. subst searched chosen.
    rewrite bool_decide_eq_true_2 by exact Hblank. cbn [negb].
    by destruct (selectedFilter vm); case_decide.
Qed.

End ReportsListExtraFacts.

(** ** The community alert and its popup *)

Module AlertPopupFacts.
Import AlertPopup.

(** Unfolds the methods down to the fields, keeping [invalidate]. *)
Ltac fields :=
  unfold togglePopup, showPopup, showPopupWithAutoHide, hidePopup,
    scheduledTimer, elapse, loadBegins, loadThrows, set_communityAlert,
    set_communityAlertLoading, set_communityAlertError, set_showingPopup,
    set_dismissTimer, set_runLoop;
  cbn [communityAlert communityAlertLoading communityAlertError showingPopup
       dismissTimer runLoop now scheduled created].

(** At most one timer is scheduled, it is [dismissTimer], and the popup
    is showing while it is pending; an error is never shown beside an
    alert. *)
Definition settled (vm : ViewModel) : Prop :=
  (scheduled (runLoop vm) = [] ∨
   ∃ t d, scheduled (runLoop vm) = [(t, d)] ∧ dismissTimer vm = Some t ∧
          showingPopup vm = true) ∧
  (communityAlertError vm = None ∨ communityAlert vm = None).

Lemma invalidate_dismissTimer (vm : ViewModel) :
  settled vm →
  scheduled (runLoop (invalidate (dismissTimer vm) vm)) = [].
Proof.
  intros [[Hnone | (t & d & Hone & Htimer & _)] _].
  - unfold invalidate. destruct (dismissTimer vm); cbn; [| done].
    by rewrite Hnone.
  - rewrite Htimer. cbn. rewrite Hone. cbn.
    rewrite decide_False; [done | ]. cbn. tauto.
Qed.

Lemma invalidate_fields (timer : option Timer) (vm : ViewModel) :
  communityAlert (invalidate timer vm) = communityAlert vm ∧
  communityAlertError (invalidate timer vm) = communityAlertError vm ∧
  showingPopup (invalidate timer vm) = showingPopup vm ∧
  dismissTimer (invalidate timer vm) = dismissTimer vm ∧
  now (runLoop (invalidate timer vm)) = now (runLoop vm).
Proof. by destruct timer. Qed.

Lemma showPopupWithAutoHide_settled (vm : ViewModel) :
  settled vm → settled (showPopupWithAutoHide vm).
Proof.
  intros Hvm. pose proof (invalidate_dismissTimer vm Hvm) as Hempty.
  destruct (invalidate_fields (dismissTimer vm) vm) as (Ha & He & _).
  destruct Hvm as [_ Halert].
  fields. split.
  - right. rewrite Hempty. cbn. by eexists _, _.
  - by rewrite Ha, He.
Qed.

Lemma step_settled (lowercased : string → string) (vm : ViewModel) (e : Event) :
  settled vm → settled (step lowercased vm e).
Proof.
  intros Hvm. destruct e as [| | | ms | t | | response |]; cbn [step].
  - pose proof (invalidate_dismissTimer vm Hvm) as Hempty.
    destruct (invalidate_fields (dismissTimer vm) vm) as (Ha & He & _).
    destruct Hvm as [_ Halert]. fields.
    split; [by left | by rewrite Ha, He].
  - by apply showPopupWithAutoHide_settled.
  - pose proof (invalidate_dismissTimer vm Hvm) as Hempty.
    destruct (invalidate_fields (dismissTimer vm) vm) as (Ha & He & _).
    destruct Hvm as [_ Halert]. fields.
    split; [by left | by rewrite Ha, He].
  - exact Hvm.
  - unfold fire. case_bool_decide as Hdue; [| exact Hvm].
    destruct Hvm as [[Hnone | (t' & d & Hone & Htimer & _)] Halert].
    + rewrite Hnone in Hdue. by apply Exists_nil in Hdue.
    + rewrite Hone in Hdue. apply Exists_cons in Hdue as [[Ht _] | Hdue];
        [| by apply Exists_nil in Hdue]. cbn in Ht. subst t'.
      split; [left | exact Halert]. cbn. rewrite Hone. cbn.
      rewrite decide_False; [done |]. cbn. tauto.
  - destruct Hvm as [Htimers Halert]. split; [exact Htimers | by left].
  - unfold loadResponse. destruct (success response).
    + case_bool_decide.
      * apply showPopupWithAutoHide_settled.
        destruct Hvm as [Htimers _]. split; [exact Htimers | by left].
      * destruct Hvm as [Htimers _]. split; [exact Htimers | by left].
    + destruct Hvm as [Htimers _]. split; [exact Htimers | by right].
  - destruct Hvm as [Htimers _]. split; [exact Htimers | by right].
Qed.

Lemma run_settled (lowercased : string → string) (vm : ViewModel)
  (events : list Event) :
  settled vm → settled (run lowercased vm events).
Proof.
  revert vm. induction events as [| e events IH]; intros vm Hvm; [exact Hvm |].
  cbn [run foldl]. apply IH. by apply step_settled.
Qed.

Lemma initial_settled : settled initial.
Proof. split; by left. Qed.

Lemma run_app (lowercased : string → string) (vm : ViewModel)
  (before after : list Event) :
  run lowercased vm (before ++ after)
  = run lowercased (run lowercased vm before) after.
Proof. apply foldl_app. Qed.

(** Whatever the user does, whenever timers fire and however the loads of
    the alert interleave: at most one timer is ever pending, it is the one
    [dismissTimer] holds, and the popup is showing while it is pending; and
    while an error is set there is no alert, so the message shown is the one
    for missing data. *)
Theorem popup_timer_invariant (lowercased : string → string)
  (events : list Event) :
  let vm := run lowercased initial events in
  (scheduled (runLoop vm) = [] ∨
   ∃ t d, scheduled (runLoop vm) = [(t, d)] ∧ dismissTimer vm = Some t ∧
          showingPopup vm = true) ∧
  (is_Some (communityAlertError vm) →
   communityAlert vm = None ∧
   mostCommonAttackMessage vm = "No hay datos de alerta disponibles").
Proof.
  cbv zeta.
  destruct (run_settled lowercased initial events initial_settled)
    as [Htimers Halert].
  split; [exact Htimers |]. intros [msg Hmsg].
  destruct Halert as [Hnone | Hnone]; [congruence |].
  split; [exact Hnone |]. unfold mostCommonAttackMessage. by rewrite Hnone.
Qed.

Lemma elapsed_nonneg (events : list Event) : 0 ≤ elapsed events.
Proof.
  unfold elapsed. induction events as [| [] events IH]; cbn [foldr]; lia.
Qed.

Lemma showPopupWithAutoHide_shown (vm : ViewModel) :
  settled vm →
  showingPopup (showPopupWithAutoHide vm) = true ∧
  now (runLoop (showPopupWithAutoHide vm)) = now (runLoop vm) ∧
  ∃ t, scheduled (runLoop (showPopupWithAutoHide vm))
       = [(t, now (runLoop vm) + 5000)].
Proof.
  intros Hvm. pose proof (invalidate_dismissTimer vm Hvm) as Hempty.
  destruct (invalidate_fields (dismissTimer vm) vm) as (_ & _ & _ & _ & Hnow).
  fields.
  rewrite Hempty, Hnow. split; [done |]. split; [done |]. by eexists.
Qed.

(** While the popup shows, every pending timer is due at [due] or later
    and a timer started now would be too, an event that is not the user's
    leaves all of that as it is, as long as the clock stays before [due]. *)
Lemma step_stays_open (lowercased : string → string) (due : Z) (e : Event)
  (vm : ViewModel) :
  settled vm →
  showingPopup vm = true →
  Forall (λ td, due ≤ td.2) (scheduled (runLoop vm)) →
  due ≤ now (runLoop vm) + 5000 →
  byUser e = false →
  now (runLoop vm) < due →
  let vm' := step lowercased vm e in
  showingPopup vm' = true ∧
  Forall (λ td, due ≤ td.2) (scheduled (runLoop vm')) ∧
  due ≤ now (runLoop vm') + 5000 ∧
  now (runLoop vm') + elapsed [] = now (runLoop vm) + elapsed [e].
Proof.
  intros Hvm Hshow Hdue Hstart Huser Hnow. cbv zeta.
  assert (Hopen : ∀ vm0,
    settled vm0 → now (runLoop vm0) = now (runLoop vm) →
    showingPopup (showPopupWithAutoHide vm0) = true ∧
    Forall (λ td, due ≤ td.2) (scheduled (runLoop (showPopupWithAutoHide vm0))) ∧
    due ≤ now (runLoop (showPopupWithAutoHide vm0)) + 5000 ∧
    now (runLoop (showPopupWithAutoHide vm0)) + 0 = now (runLoop vm) + 0).
  { intros vm0 Hvm0 Hsame.
    destruct (showPopupWithAutoHide_shown vm0 Hvm0) as (Hs & Hn & t & Ht).
    rewrite Hs, Hn, Ht, Hsame. repeat split; [| lia].
    apply Forall_singleton. cbn. lia. }
  destruct e as [| | | ms | t | | response |]; cbn [step elapsed foldr];
    try discriminate Huser.
  - by apply Hopen.
  - cbn. repeat split; [done | done | lia | lia].
  - unfold fire. rewrite bool_decide_eq_false_2; [repeat split; done || lia |].
    intros Hfire. apply Exists_exists in Hfire as (td & Hin & _ & Hle).
    rewrite Forall_forall in Hdue. specialize (Hdue td Hin). lia.
  - cbn. repeat split; done || lia.
  - unfold loadResponse. destruct (success response).
    + case_bool_decide.
      * apply Hopen; [| done].
        destruct Hvm as [Htimers _]. split; [exact Htimers | by left].
      * cbn. repeat split; done || lia.
    + cbn. repeat split; done || lia.
  - cbn. repeat split; done || lia.
Qed.

Lemma stays_open_until (lowercased : string → string) (due : Z)
  (events : list Event) (vm : ViewModel) :
  settled vm →
  showingPopup vm = true →
  Forall (λ td, due ≤ td.2) (scheduled (runLoop vm)) →
  due ≤ now (runLoop vm) + 5000 →
  Forall (λ e, byUser e = false) events →
  now (runLoop vm) + elapsed events < due →
  showingPopup (run lowercased vm events) = true.
Proof.
  revert vm. induction events as [| e events IH];
    intros vm Hvm Hshow Hdue Hstart Huser Htime; [exact Hshow |].
  apply Forall_cons in Huser as [He Huser].
  pose proof (elapsed_nonneg events) as Hrest.
  assert (Hsplit : elapsed (e :: events) = elapsed [e] + elapsed events).
  { unfold elapsed. destruct e; cbn [foldr]; lia. }
  pose proof (elapsed_nonneg [e]) as Hfirst.
  destruct (step_stays_open lowercased due e vm Hvm Hshow Hdue Hstart He)
    as (Hshow' & Hdue' & Hstart' & Hnow'); [lia |].
  cbn [run foldl]. apply IH; try done.
  - by apply step_settled.
  - change (elapsed []) with 0 in Hnow'. lia.
Qed.

(** Once the popup is shown with its timer, by [showPopup] or by a red
    alert arriving, it stays shown for five seconds: nothing but the user's
    [togglePopup] or [hidePopup] hides it before, whatever went on before
    (no timer of an earlier showing is left to fire) and whatever else
    happens meanwhile. *)
Theorem popup_stays_open_five_seconds (lowercased : string → string)
  (before after : list Event) (e : Event) :
  showsWithAutoHide lowercased e = true →
  Forall (λ e, byUser e = false) after →
  elapsed after < 5000 →
  showingPopup (run lowercased initial (before ++ e :: after)) = true.
Proof.
  intros He Huser Htime. rewrite run_app. cbn [run foldl].
  pose proof (run_settled lowercased initial before initial_settled) as Hvm.
  fold (run lowercased initial before) in *.
  set (vm := run lowercased initial before) in *.
  assert (Hstep : ∃ vm0, settled vm0 ∧ now (runLoop vm0) = now (runLoop vm) ∧
                         step lowercased vm e = showPopupWithAutoHide vm0).
  { destruct e as [| | | ms | t | | response |]; try discriminate He.
    - by exists vm.
    - cbn in He. apply andb_true_iff in He as [Hsuccess Hrojo].
      cbn [step]. unfold loadResponse. rewrite Hsuccess, Hrojo.
      eexists. split; [| split; [| reflexivity]]; [| done].
      destruct Hvm as [Htimers _]. split; [exact Htimers | by left]. }
  destruct Hstep as (vm0 & Hvm0 & Hsame & ->).
  destruct (showPopupWithAutoHide_shown vm0 Hvm0) as (Hs & Hn & t & Ht).
  apply (stays_open_until lowercased (now (runLoop vm0) + 5000)); try done.
  - by apply showPopupWithAutoHide_settled.
  - rewrite Ht. apply Forall_singleton. cbn. lia.
  - lia.
  - lia.
Qed.

(** A red alert arrives while loading; a second before the five seconds
    are over the popup still shows. *)
Lemma popup_stays_open_five_seconds_witness :
  showingPopup
    (run (λ s, s) initial
       ([LoadBegins] ++
        LoadResponse {| success := true;
                        alerta := {| nivel := "rojo"; mensaje := "alerta" |} |}
        :: [Elapse 4000%N; Fire 0%nat; LoadBegins]))
  = true.
Proof.
  apply (popup_stays_open_five_seconds (λ s, s) [LoadBegins]
           [Elapse 4000%N; Fire 0%nat; LoadBegins]).
  - reflexivity.
  - repeat constructor.
  - reflexivity.
Defined.

(** A popup opened with [togglePopup] has no timer behind it: it stays
    open until the user toggles or hides it or it is shown anew with a
    timer, however much time passes and whichever timer the run loop
    fires. *)
Theorem toggled_popup_stays_open (lowercased : string → string)
  (before after : list Event) :
  showingPopup (run lowercased initial before) = false →
  Forall (λ e, byUser e || showsWithAutoHide lowercased e = false) after →
  showingPopup (run lowercased initial (before ++ TogglePopup :: after)) = true.
Proof.
  intros Hhidden Hafter. rewrite run_app. cbn [run foldl step].
  pose proof (run_settled lowercased initial before initial_settled) as Hvm.
  fold (run lowercased initial before) in *.
  set (vm := run lowercased initial before) in *.
  assert (Hopen : showingPopup (togglePopup vm) = true ∧
                  scheduled (runLoop (togglePopup vm)) = []).
  { pose proof (invalidate_dismissTimer vm Hvm) as Hempty.
    destruct (invalidate_fields (dismissTimer vm) vm) as (_ & _ & Hs & _).
    fields. by rewrite Hs, Hhidden. }
  generalize dependent (togglePopup vm). clear -Hafter.
  induction Hafter as [| e after He _ IH]; intros vm' [Hshow Hnone];
    [exact Hshow |].
  cbn [foldl]. apply IH. apply orb_false_iff in He as [Huser Hauto].
  destruct e as [| | | ms | t | | response |]; cbn [step];
    try discriminate Huser; try discriminate Hauto; try done.
  - unfold fire. rewrite Hnone. by rewrite bool_decide_eq_false_2 by by intros ?%Exists_nil.
  - unfold loadResponse. cbn in Hauto. destruct (success response); [| done].
    cbn in Hauto. by rewrite Hauto.
Qed.

(** The popup is opened by a toggle and left alone for an hour. *)
Lemma toggled_popup_stays_open_witness :
  showingPopup
    (run (λ s, s) initial
       ([ShowPopup; HidePopup] ++ TogglePopup :: [Elapse 3600000%N; Fire 0%nat; LoadThrows]))
  = true.
Proof.
  apply (toggled_popup_stays_open (λ s, s) [ShowPopup; HidePopup]
           [Elapse 3600000%N; Fire 0%nat; LoadThrows]).
  - reflexivity.
  - repeat constructor.
Defined.

End AlertPopupFacts.
